(** * Parrot esolang compilers: the line-oriented assembly compilers
    (compiler/linux, compiler/windows) and the token-oriented front end
    (compiler/parrot_compiler.py), embedded as Rocq functions.

  Python values are modelled as follows.
  - [str] is [string]; its characters are the code points 0..255 (Rocq's
    [ascii]), classified the way Python classifies these code points.
  - a [list] is a [list]; the indent stack is kept with its LAST element
    (Python's [indent_stack[-1]]) at the head.
  - a [dict] used as a map is a [gmap]; a [set] is a [gset].
  - an uncaught exception or a [sys.exit(1)] is the [Raise] result. *)

From Stdlib Require Import String Ascii List Arith Lia NArith DecimalString
  DecimalNat DecimalFacts Sorted.
From stdpp Require Import gmap strings list fin_maps.
Import ListNotations.

Local Open Scope string_scope.
Local Open Scope list_scope.
Local Open Scope nat_scope.

(** ** Exceptions and results *)

Record node := Node { instr : string; args : list string }.

Inductive exn :=
| IndexError
| ValueError
| KeyError
| TypeError
| AttributeError
| SyntaxError (culprit : node)
| SystemExit (message : string).

Inductive result (A : Type) :=
| Ok (a : A)
| Raise (e : exn).
Arguments Ok {A} a.
Arguments Raise {A} e.

#[global] Instance result_ret : MRet result := fun A a => Ok a.
#[global] Instance result_bind : MBind result := fun A B k r =>
match r with
| Ok a => k a
| Raise e => Raise e
end.

(** ** The Python [str] methods the compilers call *)

Module Py.

Definition ord (c : ascii) : nat := nat_of_ascii c.
Definition chars (s : string) : list ascii := list_ascii_of_string s.
Definition str (l : list ascii) : string := string_of_list_ascii l.

Definition between (lo hi n : nat) : bool := (lo <=? n) && (n <=? hi).

(** [c.isspace()] on code points below 256. *)
Definition isspace (c : ascii) : bool :=
  let n := ord c in
  between 9 13 n || between 28 32 n || (n =? 133) || (n =? 160).

(** [c.isdigit()]: the ASCII digits and the superscripts 1, 2, 3. *)
Definition isdigit (c : ascii) : bool :=
  let n := ord c in
  between 48 57 n || (n =? 178) || (n =? 179) || (n =? 185).

(** [c.isalpha()]: ASCII and Latin-1 letters. *)
Definition isalpha (c : ascii) : bool :=
  let n := ord c in
  between 65 90 n || between 97 122 n || (n =? 170) || (n =? 181)
  || (n =? 186) || between 192 214 n || between 216 246 n
  || between 248 255 n.

(** [c.isalnum()]: letters, digits and the vulgar fractions. *)
Definition isalnum (c : ascii) : bool :=
  isalpha c || isdigit c || between 188 190 (ord c).

Fixpoint dropwhile (p : ascii -> bool) (l : list ascii) : list ascii :=
  match l with
  | [] => []
  | c :: tl => if p c then dropwhile p tl else l
  end.

Definition lstrip_by (p : ascii -> bool) (s : string) : string :=
  str (dropwhile p (chars s)).
Definition rstrip_by (p : ascii -> bool) (s : string) : string :=
  str (rev (dropwhile p (rev (chars s)))).
Definition strip_by (p : ascii -> bool) (s : string) : string :=
  lstrip_by p (rstrip_by p s).

Definition lstrip := lstrip_by isspace.
Definition rstrip := rstrip_by isspace.
Definition strip := strip_by isspace.

(** [s.rstrip(d)] and [s.strip(d)] for a one-character set [d]. *)
Definition is_char (d c : ascii) : bool := Ascii.eqb c d.
Definition rstrip_char (d : ascii) := rstrip_by (is_char d).
Definition strip_char (d : ascii) := strip_by (is_char d).

Definition len (s : string) : nat := String.length s.

(** [s.startswith(p)] *)
Definition startswith (p s : string) : bool := String.prefix p s.

(** [s.split()]: maximal runs of non-whitespace. [cur] is the run being
    read, reversed. *)
Fixpoint split_run (cur : list ascii) (l : list ascii) : list string :=
  match l with
  | [] => match cur with [] => [] | _ => [str (rev cur)] end
  | c :: tl =>
      if isspace c
      then match cur with
           | [] => split_run [] tl
           | _ => str (rev cur) :: split_run [] tl
           end
      else split_run (c :: cur) tl
  end.
Definition split (s : string) : list string := split_run [] (chars s).

(** [s.splitlines()]: the line boundaries below 256 are LF, VT, FF, CR,
    FS, GS, RS and NEL; CR LF counts once. [after_cr] says the previous
    character was a CR, so that a LF now ends no new line. *)
Definition is_linebreak (c : ascii) : bool :=
  let n := ord c in
  between 10 13 n || between 28 30 n || (n =? 133).

Fixpoint splitlines_run (after_cr : bool) (cur : list ascii)
         (l : list ascii) : list string :=
  match l with
  | [] => match cur with [] => [] | _ => [str (rev cur)] end
  | c :: tl =>
      if after_cr && (ord c =? 10) then splitlines_run false cur tl
      else if is_linebreak c
           then str (rev cur) :: splitlines_run (ord c =? 13) [] tl
           else splitlines_run false (c :: cur) tl
  end.
Definition splitlines (s : string) : list string :=
  splitlines_run false [] (chars s).

(** [s.split(d)] for a one-character separator [d]. *)
Fixpoint split_on_run (d : ascii) (cur : list ascii) (l : list ascii)
  : list string :=
  match l with
  | [] => [str (rev cur)]
  | c :: tl =>
      if Ascii.eqb c d then str (rev cur) :: split_on_run d [] tl
      else split_on_run d (c :: cur) tl
  end.
Definition split_on (d : ascii) (s : string) : list string :=
  split_on_run d [] (chars s).

(** [p in s] for strings. *)
Fixpoint contains (p s : string) : bool :=
  String.prefix p s
  || match s with
     | EmptyString => false
     | String _ tl => contains p tl
     end.

(** [s.endswith(p)] *)
Definition endswith (p s : string) : bool :=
  String.prefix (str (rev (chars p))) (str (rev (chars s))).

(** [s[:-1]] *)
Definition drop_last (s : string) : string :=
  str (removelast (chars s)).

Fixpoint takewhile (p : ascii -> bool) (l : list ascii) : list ascii :=
  match l with
  | [] => []
  | c :: tl => if p c then c :: takewhile p tl else []
  end.

(** [int(s)] for a string [s] with no whitespace and no sign, which is
    all the lexer passes to it: ASCII digits, with single underscores
    allowed between two digits; anything else is a ValueError ([None]).
    [prev_digit] says the previous character was a digit. *)
Definition digit_val (c : ascii) : option N :=
  if between 48 57 (ord c) then Some (N.of_nat (ord c - 48)) else None.

Fixpoint int_run (acc : N) (prev_digit : bool) (l : list ascii)
  : option N :=
  match l with
  | [] => if prev_digit then Some acc else None
  | c :: tl =>
      match digit_val c with
      | Some d => int_run (10 * acc + d)%N true tl
      | None =>
          if Ascii.eqb c "_" && prev_digit then int_run acc false tl
          else None
      end
  end.
Definition int (l : list ascii) : option N := int_run 0%N false l.

(** [sep.join(l)] *)
Definition join (sep : string) (l : list string) : string :=
  String.concat sep l.

(** [str(n)] of a non-negative integer, as an f-string prints it. *)
Definition str_of_nat (n : nat) : string :=
  NilEmpty.string_of_uint (Nat.to_uint n).

(** [l.insert(i, x)] for [0 <= i]: past the end it appends. *)
Definition insert_at {A} (i : nat) (x : A) (l : list A) : list A :=
  firstn i l ++ x :: skipn i l.

End Py.

Definition dq : ascii := "034"%char.
Definition nl : ascii := "010"%char.
Definition dqs : string := String dq EmptyString.
Definition nls : string := String nl EmptyString.

Infix "==" := String.eqb (at level 70, no associativity).

(** ** The line-oriented compilers

  [compiler/linux/prrt_compiler_linux_v1.py] and
  [compiler/windows/prrt_compiler_windows_v1.py] define the same class
  [ParrotCompiler]; they differ in [generate_asm] only. *)

Module Line.

Record ParrotCompiler := Compiler {
  source : string;
  tokens : list string;
  ast : list node;
  labels : gmap string nat;
  macros : gmap string (list node);
  label_count : nat;
  asm_lines : list string;
  ir : list node
}.

(** [__init__] *)
Definition init : ParrotCompiler := Compiler "" [] [] ∅ ∅ 0 [] [].

Definition set_ast (self : ParrotCompiler) (a : list node) :=
  Compiler (source self) (tokens self) a (labels self) (macros self)
           (label_count self) (asm_lines self) (ir self).
Definition set_labels (self : ParrotCompiler) (l : gmap string nat) :=
  Compiler (source self) (tokens self) (ast self) l (macros self)
           (label_count self) (asm_lines self) (ir self).
Definition set_macros (self : ParrotCompiler)
           (m : gmap string (list node)) :=
  Compiler (source self) (tokens self) (ast self) (labels self) m
           (label_count self) (asm_lines self) (ir self).
Definition set_ir (self : ParrotCompiler) (i : list node) :=
  Compiler (source self) (tokens self) (ast self) (labels self)
           (macros self) (label_count self) (asm_lines self) i.
Definition set_asm (self : ParrotCompiler) (a : list string) (n : nat) :=
  Compiler (source self) (tokens self) (ast self) (labels self)
           (macros self) n a (ir self).

(** *** Phase 1: [lex] *)

Definition keep_line (line : string) : bool :=
  negb (Py.strip line == "") && negb (Py.startswith ":>" (Py.strip line)).

Definition lex (self : ParrotCompiler) (code : string) : ParrotCompiler :=
  Compiler code
           (map Py.rstrip (List.filter keep_line (Py.splitlines code)))
           (ast self) (labels self) (macros self)
           (label_count self) (asm_lines self) (ir self).

(** *** Phase 2: [parse] *)

(** The local variables of [parse] that live across lines. The head of
    [indent_stack] is Python's [indent_stack[-1]]. *)
Record locals := Locals {
  indent_stack : list nat;
  current_macro : option string
}.

Definition top (stack : list nat) : result nat :=
  match stack with
  | [] => Raise IndexError
  | t :: _ => Ok t
  end.

(** [while indent < indent_stack[-1]: indent_stack.pop()] *)
Fixpoint pop_while (indent : nat) (stack : list nat) : result (list nat) :=
  match stack with
  | [] => Raise IndexError
  | t :: rest => if indent <? t then pop_while indent rest else Ok stack
  end.

Definition line_indent (line : string) : nat :=
  Py.len line - Py.len (Py.lstrip line).

(** The [if indent > ... elif indent < ...] statement. *)
Definition adjust (indent : nat) (loc : locals) : result locals :=
  t ← top (indent_stack loc);
  if t <? indent then
    Ok (Locals (indent :: indent_stack loc) (current_macro loc))
  else if indent <? t then
    stack ← pop_while indent (indent_stack loc);
    Ok (Locals stack None)
  else Ok loc.

(** The final [if current_macro and ...: ... else: ...] statement. *)
Definition place (self : ParrotCompiler) (loc : locals) (indent : nat)
           (nd : node) : result ParrotCompiler :=
  let to_ast := Ok (set_ast self (ast self ++ [nd])) in
  match current_macro loc with
  | None => to_ast
  | Some m =>
      if m == "" then to_ast
      else
        t ← top (indent_stack loc);
        if t <=? indent then
          match macros self !! m with
          | Some body => Ok (set_macros self (<[m := body ++ [nd]]> (macros self)))
          | None => Raise KeyError
          end
        else to_ast
  end.

(** The [if instr == "perch"] statement. *)
Definition record_label (self : ParrotCompiler) (i : string)
           (a : list string) : result ParrotCompiler :=
  if i == "perch" then
    match a with
    | [] => Raise IndexError
    | a0 :: _ =>
        Ok (set_labels self
              (<[Py.rstrip_char ":" a0 := length (ast self)]> (labels self)))
    end
  else Ok self.

(** One iteration of the [for line in self.tokens] loop. *)
Definition parse_line (st : ParrotCompiler * locals) (line : string)
  : result (ParrotCompiler * locals) :=
  let '(self, loc) := st in
  let indent := line_indent line in
  match Py.split (Py.strip line) with
  | [] => Raise IndexError
  | i :: a =>
      if i == "chirp" then
        match a with
        | [] => Raise IndexError
        | a0 :: _ =>
            let macro_name := Py.rstrip_char ":" a0 in
            Ok (set_macros self (<[macro_name := []]> (macros self)),
                Locals (indent :: indent_stack loc) (Some macro_name))
        end
      else
        self1 ← record_label self i a;
        loc1 ← adjust indent loc;
        self2 ← place self1 loc1 indent (Node i a);
        Ok (self2, loc1)
  end.

Fixpoint parse_lines (st : ParrotCompiler * locals) (lines : list string)
  : result (ParrotCompiler * locals) :=
  match lines with
  | [] => Ok st
  | line :: rest => st' ← parse_line st line; parse_lines st' rest
  end.

Definition parse (self : ParrotCompiler) : result ParrotCompiler :=
  st ← parse_lines (set_ast self [], Locals [0] None) (tokens self);
  Ok (fst st).

(** *** Phase 3: [semantic_check] *)

Definition is_nil {A} (l : list A) : bool :=
  match l with [] => true | _ => false end.

Fixpoint check_nodes (nodes : list node) : result unit :=
  match nodes with
  | [] => Ok tt
  | nd :: rest =>
      if (instr nd == "flyto") && is_nil (args nd)
      then Raise (SyntaxError nd)
      else check_nodes rest
  end.

Definition semantic_check (self : ParrotCompiler) : result ParrotCompiler :=
  _ ← check_nodes (ast self); Ok self.

(** *** Phase 4: [generate_ir] *)

Definition expand (m : gmap string (list node)) (nd : node) : list node :=
  match m !! instr nd with
  | Some body => body
  | None => [nd]
  end.

Fixpoint build_ir (m : gmap string (list node)) (nodes : list node)
  : list node :=
  match nodes with
  | [] => []
  | nd :: rest => expand m nd ++ build_ir m rest
  end.

Definition generate_ir (self : ParrotCompiler) : ParrotCompiler :=
  set_ir self (build_ir (macros self) (ast self)).

(** *** Phase 5: [optimize] *)

Definition optimize (self : ParrotCompiler) : ParrotCompiler := self.

(** *** Phase 6: [generate_asm]

    The emitter state is [self.asm_lines] and [self.label_count]. *)

Definition emitter := (list string * nat)%type.

Definition jmp_table (op : string) : result string :=
  if op == "==" then Ok "je"
  else if op == "!=" then Ok "jne"
  else if op == ">" then Ok "jg"
  else if op == "<" then Ok "jl"
  else if op == ">=" then Ok "jge"
  else if op == "<=" then Ok "jle"
  else Raise KeyError.

Definition flap_left (left_ : string) : string :=
  if left_ == "bowl" then "byte [rsi]" else left_.
Definition flap_right (right_ : string) : string :=
  if right_ == "empty" then "0"
  else if right_ == "bowl" then "byte [rsi]" else right_.

(** The [flap] branch, the same text in both backends. *)
Definition emit_flap (a : list string) : result (list string) :=
  match a with
  | [label; left_; op; right_] =>
      jmp_op ← jmp_table op;
      Ok [ "    movzx rax, " +:+ flap_left left_;
           "    cmp rax, " +:+ flap_right right_;
           "    " +:+ jmp_op +:+ " ." +:+ label ]
  | _ => Raise ValueError
  end.

(** The [add] and [sub] branches, the same text in both backends. *)
Definition emit_arith (mnemonic : string) (a : list string)
  : result (list string) :=
  match a with
  | [dest; val] =>
      if dest == "bowl"
      then Ok [ "    " +:+ mnemonic +:+ " byte [rsi], " +:+ val ]
      else Ok []
  | _ => Raise ValueError
  end.

Definition arg0 (a : list string) : result string :=
  match a with
  | [] => Raise IndexError
  | a0 :: _ => Ok a0
  end.

Definition mimic_string (a : list string) : string :=
  Py.strip_char dq (Py.join " " a).

Definition linux_prologue : list string :=
  [ "section .data";
    "newline db 10, 0";
    "input_prompt db 'Feed the birb: ', 0";
    "input_buffer resb 128";
    "section .bss";
    "tape resb 30000";
    "section .text";
    "global _start";
    "_start:";
    "    mov rsi, tape" ].

(** One iteration of the [for node in self.ir] loop of the Linux file. *)
Definition emit_linux (e : emitter) (nd : node) : result emitter :=
  let '(asm, count) := e in
  let i := instr nd in
  let a := args nd in
  if i == "peck" then Ok (asm ++ ["    inc byte [rsi]"], count)
  else if i == "scratch" then Ok (asm ++ ["    dec byte [rsi]"], count)
  else if i == "hop" then Ok (asm ++ ["    inc rsi"], count)
  else if i == "hopback" then Ok (asm ++ ["    dec rsi"], count)
  else if i == "squawk" then
    Ok (asm ++ [ "    mov rax, 1";
                 "    mov rdi, 1";
                 "    mov rdx, 1";
                 "    mov rsi, rsi";
                 "    syscall" ], count)
  else if i == "mimic" then
    let label := "str_" +:+ Py.str_of_nat count in
    let string := mimic_string a in
    let asm1 :=
      Py.insert_at 1
        (label +:+ " db " +:+ dqs +:+ string +:+ dqs +:+ ", 10, 0") asm in
    Ok (asm1 ++ [ "    mov rax, 1";
                  "    mov rdi, 1";
                  "    mov rsi, " +:+ label;
                  "    mov rdx, " +:+ Py.str_of_nat (Py.len string + 1);
                  "    syscall" ], count + 1)
  else if i == "gulp" then
    Ok (asm ++ [ "    mov rax, 0";
                 "    mov rdi, 0";
                 "    mov rsi, rsi";
                 "    mov rdx, 1";
                 "    syscall" ], count)
  else if i == "devour" then
    Ok (asm ++ [ "    mov rax, 0";
                 "    mov rdi, 0";
                 "    mov rsi, rsi";
                 "    mov rdx, 128";
                 "    syscall" ], count)
  else if i == "regurgitate" then
    Ok (asm ++ [ ".reg_loop:";
                 "    mov al, [rsi]";
                 "    cmp al, 0";
                 "    je .reg_end";
                 "    mov rax, 1";
                 "    mov rdi, 1";
                 "    mov rdx, 1";
                 "    syscall";
                 "    inc rsi";
                 "    jmp .reg_loop";
                 ".reg_end:" ], count)
  else if i == "flyto" then
    a0 ← arg0 a; Ok (asm ++ ["    jmp ." +:+ a0], count)
  else if i == "perch" then
    a0 ← arg0 a; Ok (asm ++ ["." +:+ a0 +:+ ":"], count)
  else if i == "flap" then
    lines ← emit_flap a; Ok (asm ++ lines, count)
  else if i == "add" then
    lines ← emit_arith "add" a; Ok (asm ++ lines, count)
  else if i == "sub" then
    lines ← emit_arith "sub" a; Ok (asm ++ lines, count)
  else if i == "bob" then
    a0 ← arg0 a;
    Ok (asm ++ ["    mov rcx, " +:+ a0 +:+ " ; bob head delay placeholder"],
        count)
  else if i == "preen" then Ok (asm ++ ["    mov rsi, tape"], count)
  else if i == "poop" then Ok (asm ++ ["    mov byte [rsi], 0"], count)
  else if i == "perish" then
    Ok (asm ++ [ "    mov rax, 60";
                 "    xor rdi, rdi";
                 "    syscall" ], count)
  else Ok e.

Definition windows_prologue : list string :=
  [ "extern ExitProcess";
    "extern printf";
    "extern scanf";
    "section .data";
    "newline db 10, 0";
    "fmt_in db " +:+ dqs +:+ "%c" +:+ dqs +:+ ", 0";
    "fmt_out db " +:+ dqs +:+ "%c" +:+ dqs +:+ ", 0";
    "input_buffer db 128 dup(0)";
    "section .bss";
    "tape resb 30000";
    "section .text";
    "global main";
    "main:";
    "    mov rsi, tape" ].

(** One iteration of the [for node in self.ir] loop of the Windows file. *)
Definition emit_windows (e : emitter) (nd : node) : result emitter :=
  let '(asm, count) := e in
  let i := instr nd in
  let a := args nd in
  if i == "peck" then Ok (asm ++ ["    inc byte [rsi]"], count)
  else if i == "scratch" then Ok (asm ++ ["    dec byte [rsi]"], count)
  else if i == "hop" then Ok (asm ++ ["    inc rsi"], count)
  else if i == "hopback" then Ok (asm ++ ["    dec rsi"], count)
  else if i == "squawk" then
    Ok (asm ++ [ "    movzx rcx, byte [rsi]";
                 "    lea rdx, [fmt_out]";
                 "    call printf" ], count)
  else if i == "mimic" then
    let label := "str_" +:+ Py.str_of_nat count in
    let string := mimic_string a in
    let asm1 :=
      Py.insert_at 4
        (label +:+ " db " +:+ dqs +:+ string +:+ dqs +:+ ", 10, 0") asm in
    Ok (asm1 ++ [ "    lea rcx, [" +:+ label +:+ "]";
                  "    call printf" ], count + 1)
  else if i == "gulp" then
    Ok (asm ++ [ "    lea rdx, [fmt_in]";
                 "    mov rcx, rsi";
                 "    call scanf" ], count)
  else if i == "devour" then
    Ok (asm ++ [ "    ; simplified devour -> scanf";
                 "    lea rdx, [fmt_in]";
                 "    mov rcx, rsi";
                 "    call scanf" ], count)
  else if i == "regurgitate" then
    Ok (asm ++ [ "reg_loop:";
                 "    mov al, [rsi]";
                 "    cmp al, 0";
                 "    je reg_end";
                 "    movzx rcx, al";
                 "    lea rdx, [fmt_out]";
                 "    call printf";
                 "    inc rsi";
                 "    jmp reg_loop";
                 "reg_end:" ], count)
  else if i == "flyto" then
    a0 ← arg0 a; Ok (asm ++ ["    jmp ." +:+ a0], count)
  else if i == "perch" then
    a0 ← arg0 a; Ok (asm ++ ["." +:+ a0 +:+ ":"], count)
  else if i == "flap" then
    lines ← emit_flap a; Ok (asm ++ lines, count)
  else if i == "add" then
    lines ← emit_arith "add" a; Ok (asm ++ lines, count)
  else if i == "sub" then
    lines ← emit_arith "sub" a; Ok (asm ++ lines, count)
  else if i == "bob" then
    a0 ← arg0 a;
    Ok (asm ++ ["    ; bob pause placeholder: " +:+ a0 +:+ " seconds"],
        count)
  else if i == "preen" then Ok (asm ++ ["    mov rsi, tape"], count)
  else if i == "poop" then Ok (asm ++ ["    mov byte [rsi], 0"], count)
  else if i == "perish" then
    Ok (asm ++ [ "    xor rcx, rcx";
                 "    call ExitProcess" ], count)
  else Ok e.

Fixpoint emit_all (emit : emitter -> node -> result emitter)
         (e : emitter) (nodes : list node) : result emitter :=
  match nodes with
  | [] => Ok e
  | nd :: rest => e' ← emit e nd; emit_all emit e' rest
  end.

(** [generate_asm]: the compiler afterwards, and the text written to the
    output file. *)
Definition generate_asm (prologue : list string)
           (emit : emitter -> node -> result emitter)
           (self : ParrotCompiler) : result (ParrotCompiler * string) :=
  e ← emit_all emit (prologue, label_count self) (ir self);
  Ok (set_asm self (fst e) (snd e), Py.join nls (fst e)).

Definition generate_asm_linux := generate_asm linux_prologue emit_linux.
Definition generate_asm_windows := generate_asm windows_prologue emit_windows.

(** *** The entry point: a fresh compiler run through the six phases *)

Definition front_end (code : string) : result ParrotCompiler :=
  c ← parse (lex init code);
  c ← semantic_check c;
  Ok (optimize (generate_ir c)).

Definition compile_linux (code : string) : result string :=
  c ← front_end code;
  out ← generate_asm_linux c;
  Ok (snd out).

Definition compile_windows (code : string) : result string :=
  c ← front_end code;
  out ← generate_asm_windows c;
  Ok (snd out).

(** *** Vocabulary of the properties of the line-oriented compilers *)

(** The label a [perch] node defines: [args[0].rstrip(":")]. *)
Definition perch_label (nd : node) : option string :=
  if instr nd == "perch" then
    match args nd with
    | a0 :: _ => Some (Py.rstrip_char ":" a0)
    | [] => None
    end
  else None.

(** The node [parse] builds for a line. *)
Definition line_node (line : string) : option node :=
  match Py.split (Py.strip line) with
  | i :: a => Some (Node i a)
  | [] => None
  end.

Definition line_label (line : string) : option string :=
  match line_node line with
  | Some nd => perch_label nd
  | None => None
  end.

(** [line] is a [perch] line for the label [l]. *)
Definition names (l : string) (line : string) : bool :=
  bool_decide (line_label line = Some l).

Definition count_label (l : string) (lines : list string) : nat :=
  length (List.filter (names l) lines).

(** The label table after a run of lines, for a label that one line
    names: [seen] are the lines read before. *)
Definition labels_ok (seen : list string) (self : ParrotCompiler) : Prop :=
  forall i nd l,
    ast self !! i = Some nd -> perch_label nd = Some l ->
    1 <= count_label l seen /\
    (count_label l seen = 1 -> labels self !! l = Some i).

(** The claim of C1 as the specification states it. *)
Definition labels_index_flat_ir : Prop :=
  forall code c l i,
    front_end code = Ok c -> labels c !! l = Some i ->
    i < length (ir c) /\
    exists nd, ir c !! i = Some nd /\ perch_label nd = Some l.

(** A macro of two instructions, called before a [perch]. *)
Definition call_before_perch : string :=
  Py.join nls ["chirp twice:"; "    peck"; "    peck"; "twice";
               "perch start:"; "peck"].

(** The six-line program of the specification. *)
Definition six_lines : string :=
  Py.join nls ["perch start:"; "peck"; "peck"; "flap start bowl < 5";
               "mimic " +:+ dqs +:+ "done" +:+ dqs; "perish"].

(** The six lines after a comment line. *)
Definition six_lines_commented : string :=
  Py.join nls [":> count to five"; six_lines].

(** The compiler after the front end, for a source it accepts. *)
Definition compiled (code : string) : ParrotCompiler :=
  match front_end code with
  | Ok c => c
  | Raise _ => init
  end.



(** A macro whose body is a [flyto] without a label, and a call of it. *)
Definition flyto_in_macro : string :=
  Py.join nls ["chirp m:"; "    flyto"; "m"].

(** A macro of two instructions, called once between two instructions. *)
Definition twice_called : ParrotCompiler :=
  compiled (Py.join nls ["chirp twice:"; "    peck"; "    peck";
                         "hop"; "twice"; "squawk"]).

(** The text [generate_asm] writes, or the exception it raises. *)
Definition text_of (r : result (ParrotCompiler * string)) : result string :=
  out ← r; Ok (snd out).

(** The file the Linux compiler writes for the six-line program. *)
Definition six_lines_asm : string :=
  Py.join nls
    [ "section .data";
      "str_0 db " +:+ dqs +:+ "done" +:+ dqs +:+ ", 10, 0";
      "newline db 10, 0";
      "input_prompt db 'Feed the birb: ', 0";
      "input_buffer resb 128";
      "section .bss";
      "tape resb 30000";
      "section .text";
      "global _start";
      "_start:";
      "    mov rsi, tape";
      ".start::";
      "    inc byte [rsi]";
      "    inc byte [rsi]";
      "    movzx rax, byte [rsi]";
      "    cmp rax, 5";
      "    jl .start";
      "    mov rax, 1";
      "    mov rdi, 1";
      "    mov rsi, str_0";
      "    mov rdx, 5";
      "    syscall";
      "    mov rax, 60";
      "    xor rdi, rdi";
      "    syscall" ].



(** The claim of C3 as the specification states it: a macro that the
    top-level sequence calls once has its call replaced by its body, and
    every other instruction stays as it is. *)
Definition single_call_replaced : Prop :=
  forall self pre call post body,
    ast self = pre ++ call :: post ->
    macros self !! instr call = Some body ->
    (forall nd, In nd (pre ++ post) -> instr nd <> instr call) ->
    ir (generate_ir self) = pre ++ body ++ post /\
    (length body = 2 ->
     length (ir (generate_ir self)) = length (ast self) - 1 + 2).

(** Two macros of two instructions, each called once. *)
Definition two_macros : string :=
  Py.join nls ["chirp twice:"; "    peck"; "    peck";
               "chirp pair:"; "    hop"; "    hop";
               "twice"; "squawk"; "pair"].




(** *** Vocabulary of the further properties

    Lines that [parse] cannot read: a [chirp] or a [perch] without an
    argument, on which [args[0]] is out of range. *)

Definition bare (nd : node) : bool :=
  is_nil (args nd) && ((instr nd == "chirp") || (instr nd == "perch")).

Definition bare_line (line : string) : Prop :=
  exists nd, line_node line = Some nd /\ bare nd = true.

Definition full_line (line : string) : Prop :=
  exists nd, line_node line = Some nd /\ bare nd = false.

(** What the loop of [parse] keeps: the indent stack has the 0 it started
    with at its bottom, and a current macro has its entry in [macros]. *)
Definition parse_inv (st : ParrotCompiler * locals) : Prop :=
  last (indent_stack (snd st)) = Some 0 /\
  forall m, current_macro (snd st) = Some m -> m <> "" ->
            is_Some (macros (fst st) !! m).

(** A line whose instruction is not [chirp]. *)
Definition no_chirp (line : string) : Prop :=
  forall nd, line_node line = Some nd -> instr nd <> "chirp".

(** A node that passes the test of [semantic_check]. *)
Definition flyto_ok (nd : node) : Prop :=
  instr nd = "flyto" -> args nd <> [].

(** The exception that the branch of [generate_asm] for [nd] raises, if
    any: IndexError from [args[0]], ValueError from unpacking [args] into
    four or two names, KeyError from the table of jumps. *)
Definition failure (nd : node) : option exn :=
  let i := instr nd in
  let a := args nd in
  if (i == "flyto") || (i == "perch") || (i == "bob") then
    if is_nil a then Some IndexError else None
  else if i == "flap" then
    match a with
    | [_; _; op; _] =>
        match jmp_table op with
        | Ok _ => None
        | Raise x => Some x
        end
    | _ => Some ValueError
    end
  else if (i == "add") || (i == "sub") then
    match a with
    | [_; _] => None
    | _ => Some ValueError
    end
  else None.

Fixpoint first_failure (nodes : list node) : option exn :=
  match nodes with
  | [] => None
  | nd :: rest =>
      match failure nd with
      | Some x => Some x
      | None => first_failure rest
      end
  end.

(** [r] raises the expected exception, or returns when none is
    expected. *)
Definition outcome {A} (expected : option exn) (r : result A) : Prop :=
  match expected with
  | Some x => r = Raise x
  | None => exists a, r = Ok a
  end.

(** The line that a [mimic] with the arguments [a] puts into the data
    section when [label_count] is [n]. *)
Definition const_line (n : nat) (a : list string) : string :=
  ("str_" +:+ Py.str_of_nat n)
  +:+ " db " +:+ dqs +:+ mimic_string a +:+ dqs +:+ ", 10, 0".

(** The constants of the [mimic] instructions of [nodes], the first of
    them numbered [n], the latest first. *)
Fixpoint data_lines (n : nat) (nodes : list node) : list string :=
  match nodes with
  | [] => []
  | nd :: rest =>
      if instr nd == "mimic"
      then data_lines (S n) rest ++ [const_line n (args nd)]
      else data_lines n rest
  end.

Definition count_mimic (nodes : list node) : nat :=
  length (List.filter (fun nd => instr nd == "mimic") nodes).

(** One instruction keeps the shape of the lines: the head of the
    prologue, the constants with a new one in front for a [mimic], the
    rest of the prologue, and the instruction text grown at its end. *)
Definition shaped (head consts rest : list string) (n : nat) (nd : node)
           (r : result emitter) : Prop :=
  match r with
  | Ok e' =>
      exists code',
        e' = (head ++ (data_lines n [nd] ++ consts) ++ rest ++ code',
              length (data_lines n [nd]) + n)
  | Raise _ => True
  end.

(** Every key of the label table is the label of a [perch] line read so
    far and holds an index that is at most the length of the top-level
    sequence; every instruction of the top-level sequence and of a macro
    body is the node of a line read so far. *)
Definition stored_ok (seen : list string) (self : ParrotCompiler) : Prop :=
  (forall l, is_Some (labels self !! l) <->
             Exists (fun line => line_label line = Some l) seen) /\
  (forall l i, labels self !! l = Some i -> i <= length (ast self)) /\
  (forall nd, In nd (ast self) ->
              Exists (fun line => line_node line = Some nd) seen) /\
  (forall m body nd, macros self !! m = Some body -> In nd body ->
                     Exists (fun line => line_node line = Some nd) seen).

(** The compiler after [lex] and [parse], for a source they accept. *)
Definition parsed (code : string) : ParrotCompiler :=
  match parse (lex init code) with
  | Ok c => c
  | Raise _ => init
  end.

(** A source with a macro that calls another one. *)
Definition nested_macros : string :=
  Py.join nls
    ["chirp inner:"; "    peck"; "chirp outer:"; "    inner"; "outer"].

(** A source with a macro that is not called. *)
Definition unused_macro : string :=
  Py.join nls ["hop"; "chirp twice:"; "    peck"; "    peck"].

End Line.

(** ** The token-oriented compiler front end
     ([compiler/parrot_compiler.py]: [ParrotLexer], [ParrotParser]) *)

Module Tok.

Inductive TokenType :=
| COMMENT | PECK | SCRATCH | HOP | HOPBACK | GULP | SQUAWK | STOMACH
| DEVOUR | REGURGITATE | BOWL | MIMIC | PREEN | POOP | PERCH | CHIRP
| FLYTO | FLAP | ADD | SUB | MUL | DIV | BOB | PERISH | IDENTIFIER
| STRING | NUMBER | OPERATOR | EMPTY | INTO | CELL_REF.

#[global] Instance TokenType_eq_dec : EqDecision TokenType.
Proof. solve_decision. Defined.

(** The Python values a token or a statement dictionary carries. *)
#[warnings="-register-all"]
Inductive pyval :=
| VNone
| VStr (s : string)
| VInt (n : N)
| VBool (b : bool)
| VList (l : list pyval).

(** [indentation] is the attribute that [tokenize] sets on the first token
    of a line only; [getattr(tok, 'indentation', 0)] reads it. *)
Record Token := mkToken {
  type : TokenType;
  value : pyval;
  line_number : nat;
  indentation : option nat
}.

Definition Tk (t : TokenType) (v : pyval) (line_num : nat) : Token :=
  mkToken t v line_num None.

(** *** [ParrotLexer] *)

Definition keywords : list (string * TokenType) :=
  [ ("peck", PECK); ("scratch", SCRATCH); ("hop", HOP);
    ("hopback", HOPBACK); ("gulp", GULP); ("squawk", SQUAWK);
    ("stomach", STOMACH); ("devour", DEVOUR);
    ("regurgitate", REGURGITATE); ("bowl", BOWL); ("mimic", MIMIC);
    ("preen", PREEN); ("poop", POOP); ("perch", PERCH); ("chirp", CHIRP);
    ("flyto", FLYTO); ("flap", FLAP); ("add", ADD); ("sub", SUB);
    ("mul", MUL); ("div", DIV); ("bob", BOB); ("perish", PERISH);
    ("into", INTO); ("empty", EMPTY) ].

Definition operators : list (string * string) :=
  [ (">", ">"); ("<", "<"); ("=", "=="); ("==", "=="); ("!=", "!=");
    (">=", ">="); ("<=", "<=") ].

Fixpoint lookup_key {A} (k : string) (table : list (string * A))
  : option A :=
  match table with
  | [] => None
  | (k', v) :: rest => if k == k' then Some v else lookup_key k rest
  end.

Definition backslash : ascii := "092"%char.

(** The inner loop of the string branch, started after the opening quote:
    the characters up to the closing quote, or [None] when the line ends
    first. *)
Fixpoint string_body (l : list ascii) : option (list ascii) :=
  match l with
  | [] => None
  | c :: tl =>
      if Ascii.eqb c dq then Some []
      else if Ascii.eqb c backslash then
        match tl with
        | c2 :: tl2 => (fun b => c :: c2 :: b) <$> string_body tl2
        | [] => None
        end
      else (fun b => c :: b) <$> string_body tl
  end.

Definition is_word_start (c : ascii) : bool :=
  Py.isalpha c || Ascii.eqb c "_" || Ascii.eqb c "#".
Definition is_word_char (c : ascii) : bool :=
  Py.isalnum c || Ascii.eqb c "_" || Ascii.eqb c "#".
Definition is_op_start (c : ascii) : bool :=
  Ascii.eqb c "<" || Ascii.eqb c ">" || Ascii.eqb c "=" || Ascii.eqb c "!".

(** One pass through the body of [while i < len(line)] with [line[i] = c]
    and [tl] the rest of the line: the token appended, if any, and by how
    much [i] grows. *)
Definition lex_at (line_num : nat) (c : ascii) (tl : list ascii)
  : result (option Token * nat) :=
  if Py.isspace c then Ok (None, 1)
  else if Ascii.eqb c dq then
    match string_body tl with
    | Some body =>
        Ok (Some (Tk STRING (VStr (Py.str body)) line_num),
            length body + 2)
    | None =>
        Raise (SystemExit ("Error: Unclosed string literal at line "
                           +:+ Py.str_of_nat line_num))
    end
  else if Py.isdigit c then
    let run := Py.takewhile Py.isdigit (c :: tl) in
    match Py.int run with
    | Some n => Ok (Some (Tk NUMBER (VInt n) line_num), length run)
    | None => Raise ValueError
    end
  else if is_word_start c then
    let run := Py.takewhile is_word_char (c :: tl) in
    let word := Py.str run in
    if Py.startswith "#" word then
      match Py.int (tail run) with
      | Some n => Ok (Some (Tk CELL_REF (VInt n) line_num), length run)
      | None =>
          Raise (SystemExit ("Error: Invalid cell reference '" +:+ word
                             +:+ "' at line " +:+ Py.str_of_nat line_num))
      end
    else
      match lookup_key word keywords with
      | Some t => Ok (Some (Tk t (VStr word) line_num), length run)
      | None => Ok (Some (Tk IDENTIFIER (VStr word) line_num), length run)
      end
  else if is_op_start c then
    let run :=
      match tl with
      | c2 :: _ => if Ascii.eqb c2 "=" then [c; c2] else [c]
      | [] => [c]
      end in
    match lookup_key (Py.str run) operators with
    | Some op => Ok (Some (Tk OPERATOR (VStr op) line_num), length run)
    | None =>
        Raise (SystemExit ("Error: Invalid operator '" +:+ Py.str run
                           +:+ "' at line " +:+ Py.str_of_nat line_num))
    end
  else if Ascii.eqb c ":" then
    Ok (Some (Tk IDENTIFIER (VStr ":") line_num), 1)
  else Ok (None, 1).

(** The loop [while i < len(line)] over the rest of the line from [i].
    A token moves [i] past all its characters at once: [skip] counts the
    characters of [rest] that [i] has already moved past. *)
Fixpoint scan (line_num : nat) (skip : nat) (rest : list ascii)
  : result (list Token) :=
  match rest with
  | [] => Ok []
  | c :: tl =>
      match skip with
      | S k => scan line_num k tl
      | 0 =>
          r ← lex_at line_num c tl;
          toks ← scan line_num (snd r - 1) tl;
          Ok (match fst r with
              | Some t => t :: toks
              | None => toks
              end)
      end
  end.

(** [line_tokens[0].indentation = indentation // 4] *)
Definition mark_first (level : nat) (line_tokens : list Token)
  : list Token :=
  match line_tokens with
  | [] => []
  | t :: rest =>
      mkToken (type t) (value t) (line_number t) (Some level) :: rest
  end.

(** The loop [for line_num, line in enumerate(lines, 1)]. *)
Fixpoint tokenize_lines (line_num : nat) (multiline_comment : bool)
         (lines : list string) : result (list Token) :=
  match lines with
  | [] => Ok []
  | line :: rest =>
      if Py.strip line == "" then
        tokenize_lines (S line_num) multiline_comment rest
      else if multiline_comment then
        tokenize_lines (S line_num) (negb (Py.contains ":)" line)) rest
      else if Py.contains "(:" line && negb (Py.contains ":)" line) then
        tokenize_lines (S line_num) true rest
      else if Py.startswith ":>" (Py.strip line) then
        tokenize_lines (S line_num) false rest
      else
        let indentation := Line.line_indent line in
        line_tokens ← scan line_num 0 (skipn indentation (Py.chars line));
        later ← tokenize_lines (S line_num) false rest;
        Ok (mark_first (indentation / 4) line_tokens ++ later)
  end.

Definition tokenize (code : string) : result (list Token) :=
  tokenize_lines 1 false (Py.split_on nl code).

(** *** [ParrotParser]

    Tokens are those [tokenize] produces: the value of an IDENTIFIER is a
    [str]. Where Python would go on with a key that is no string, the
    model raises TypeError; where it would call a [str] method on another
    value, AttributeError. *)

Record ParrotParser := Parser {
  tokens : list Token;
  current : nat;
  indent_stack : list nat;
  labels : gset string;
  chirps : gmap string (list Token);
  stomachs : gmap string pyval
}.

(** [__init__] *)
Definition new (toks : list Token) : ParrotParser :=
  Parser toks 0 [0] ∅ ∅ ∅.

Definition set_current (self : ParrotParser) (c : nat) :=
  Parser (tokens self) c (indent_stack self) (labels self) (chirps self)
         (stomachs self).
Definition add_label (self : ParrotParser) (l : string) :=
  Parser (tokens self) (current self) (indent_stack self)
         ({[l]} ∪ labels self) (chirps self) (stomachs self).
Definition set_chirp (self : ParrotParser) (k : string) (b : list Token) :=
  Parser (tokens self) (current self) (indent_stack self) (labels self)
         (<[k := b]> (chirps self)) (stomachs self).
Definition set_stomach (self : ParrotParser) (k : string) (v : pyval) :=
  Parser (tokens self) (current self) (indent_stack self) (labels self)
         (chirps self) (<[k := v]> (stomachs self)).

(** [i < len(self.tokens) and self.tokens[i].type == t] *)
Definition type_at (self : ParrotParser) (i : nat) (t : TokenType) : bool :=
  match tokens self !! i with
  | Some tok => bool_decide (type tok = t)
  | None => false
  end.

Definition value_at (self : ParrotParser) (i : nat) : pyval :=
  match tokens self !! i with
  | Some tok => value tok
  | None => VNone
  end.

(** [if name.endswith(':'): name = name[:-1]] *)
Definition strip_colon (v : pyval) : result string :=
  match v with
  | VStr name =>
      Ok (if Py.endswith ":" name then Py.drop_last name else name)
  | _ => Raise AttributeError
  end.

(** The condition that ends the collection of a chirp body. *)
Definition is_top_decl (tok : Token) : bool :=
  (bool_decide (type tok = PERCH) || bool_decide (type tok = CHIRP))
  && (default 0 (indentation tok) =? 0).

Fixpoint body_run (l : list Token) : list Token :=
  match l with
  | [] => []
  | tok :: rest => if is_top_decl tok then [] else tok :: body_run rest
  end.

(** [if name: self.stomachs[name] = size] *)
Definition declare_stomach (self : ParrotParser) (name size : pyval)
  : result ParrotParser :=
  match name with
  | VNone => Ok self
  | VStr n => if n == "" then Ok self else Ok (set_stomach self n size)
  | _ => Raise TypeError
  end.

(** One pass through the body of [while i < len(self.tokens)] in
    [first_pass], with [token = self.tokens[i]]: the parser afterwards and
    the next value of [i]. *)
Definition first_pass_step (self : ParrotParser) (i : nat) (token : Token)
  : result (ParrotParser * nat) :=
  if bool_decide (type token = PERCH) then
    if type_at self (i + 1) IDENTIFIER then
      label_name ← strip_colon (value_at self (i + 1));
      Ok (add_label self label_name, i + 2 + 1)
    else Ok (self, i + 2 + 1)
  else if bool_decide (type token = CHIRP) then
    if type_at self (i + 1) IDENTIFIER then
      chirp_name ← strip_colon (value_at self (i + 1));
      let chirp_body := body_run (skipn (i + 2) (tokens self)) in
      Ok (set_chirp self chirp_name chirp_body, i + 2 + length chirp_body)
    else Ok (self, i + 1)
  else if bool_decide (type token = STOMACH) then
    if i + 1 <? length (tokens self) then
      let size :=
        if type_at self (i + 1) NUMBER then value_at self (i + 1)
        else VNone in
      let name :=
        if type_at self (i + 1) NUMBER then
          if type_at self (i + 2) IDENTIFIER then value_at self (i + 2)
          else VNone
        else if type_at self (i + 1) IDENTIFIER then value_at self (i + 1)
        else VNone in
      self' ← declare_stomach self name size;
      Ok (self', i + 1)
    else Ok (self, i + 1)
  else Ok (self, i + 1).

(** The loop of [first_pass]; [None] when [fuel] passes do not reach the
    end of the tokens. *)
Fixpoint first_pass_loop (fuel : nat) (self : ParrotParser) (i : nat)
  : option (result ParrotParser) :=
  match tokens self !! i with
  | None => Some (Ok self)
  | Some token =>
      match fuel with
      | 0 => None
      | S fuel' =>
          match first_pass_step self i token with
          | Raise e => Some (Raise e)
          | Ok (self', i') => first_pass_loop fuel' self' i'
          end
      end
  end.

Definition first_pass (self : ParrotParser) : option (result ParrotParser) :=
  first_pass_loop (length (tokens self)) self 0.

Definition is_at_end (self : ParrotParser) : bool :=
  length (tokens self) <=? current self.

(** [previous]: [self.tokens[self.current - 1]], where index -1 is the
    last token. *)
Definition previous (self : ParrotParser) : result Token :=
  let found :=
    match current self with
    | 0 => last (tokens self)
    | S c => tokens self !! c
    end in
  match found with
  | Some tok => Ok tok
  | None => Raise IndexError
  end.

Definition advance (self : ParrotParser) : result (ParrotParser * Token) :=
  let self' :=
    if is_at_end self then self else set_current self (current self + 1) in
  tok ← previous self';
  Ok (self', tok).

Definition peek (self : ParrotParser) : option Token :=
  if is_at_end self then None else tokens self !! current self.

Definition check (self : ParrotParser) (t : TokenType) : bool :=
  match peek self with
  | Some tok => bool_decide (type tok = t)
  | None => false
  end.

(** An [if not self.is_at_end(): if self.peek().type == T1: ... elif
    self.peek().type == T2: ...] chain whose branches each advance once:
    the first listed type that the current token has, with the token. *)
Fixpoint take_first (self : ParrotParser) (alts : list TokenType)
  : result (ParrotParser * option (TokenType * Token)) :=
  match alts with
  | [] => Ok (self, None)
  | t :: rest =>
      if check self t then
        r ← advance self;
        Ok (fst r, Some (t, snd r))
      else take_first self rest
  end.

(** The value such a chain assigns: ["bowl"] and ["empty"] for those two
    keywords, the token's value otherwise, [None] when no branch ran. *)
Definition operand (found : option (TokenType * Token)) : pyval :=
  match found with
  | None => VNone
  | Some (t, tok) =>
      if bool_decide (t = BOWL) then VStr "bowl"
      else if bool_decide (t = EMPTY) then VStr "empty"
      else value tok
  end.

Definition is_cell (found : option (TokenType * Token)) : bool :=
  match found with
  | Some (t, _) => bool_decide (t = CELL_REF)
  | None => false
  end.

(** A statement dictionary, its keys in the order of the literal. *)
Definition dict := list (string * pyval).

Definition simple (self : ParrotParser) (name : string)
  : result (ParrotParser * option dict) :=
  r ← advance self;
  Ok (fst r, Some [("type", VStr name)]).

Definition parse_statement (self : ParrotParser)
  : result (ParrotParser * option dict) :=
  match peek self with
  | None => Ok (self, None)
  | Some token =>
      match type token with
      | PECK => simple self "peck"
      | SCRATCH => simple self "scratch"
      | HOP => simple self "hop"
      | HOPBACK => simple self "hopback"
      | GULP =>
          r ← advance self;
          a ← take_first (fst r) [STRING; NUMBER];
          let args :=
            match snd a with
            | Some (_, tok) => [value tok]
            | None => []
            end in
          Ok (fst a, Some [("type", VStr "gulp"); ("args", VList args)])
      | SQUAWK => simple self "squawk"
      | STOMACH =>
          r ← advance self;
          sz ← take_first (fst r) [NUMBER];
          nm ← take_first (fst sz) [IDENTIFIER];
          match snd nm with
          | Some (_, tok) =>
              Ok (fst nm, Some [("type", VStr "stomach");
                                ("name", value tok);
                                ("size", operand (snd sz))])
          | None =>
              Raise (SystemExit ("Error at line "
                                 +:+ Py.str_of_nat (line_number token)
                                 +:+ ": Expected stomach name"))
          end
      | DEVOUR =>
          r ← advance self;
          into ← take_first (fst r) [INTO];
          tg ← match snd into with
               | Some _ => take_first (fst into) [IDENTIFIER; NUMBER]
               | None => Ok (fst into, None)
               end;
          ct ← take_first (fst tg) [STRING];
          Ok (fst ct, Some [("type", VStr "devour");
                            ("target", operand (snd tg));
                            ("content", operand (snd ct))])
      | REGURGITATE =>
          r ← advance self;
          tg ← take_first (fst r) [IDENTIFIER];
          Ok (fst tg, Some [("type", VStr "regurgitate");
                            ("target", operand (snd tg))])
      | MIMIC =>
          r ← advance self;
          tx ← take_first (fst r) [STRING];
          match snd tx with
          | Some (_, tok) =>
              Ok (fst tx, Some [("type", VStr "mimic");
                                ("text", value tok)])
          | None =>
              Raise (SystemExit ("Error at line "
                                 +:+ Py.str_of_nat (line_number token)
                                 +:+ ": Expected string after mimic"))
          end
      | PREEN => simple self "preen"
      | POOP => simple self "poop"
      | PERCH =>
          r ← advance self;
          nm ← take_first (fst r) [IDENTIFIER];
          name ← match snd nm with
                 | Some (_, tok) => s ← strip_colon (value tok); Ok (VStr s)
                 | None => Ok VNone
                 end;
          Ok (fst nm, Some [("type", VStr "perch"); ("name", name)])
      | FLYTO =>
          r ← advance self;
          tg ← take_first (fst r) [IDENTIFIER];
          Ok (fst tg, Some [("type", VStr "flyto");
                            ("target", operand (snd tg))])
      | FLAP =>
          r ← advance self;
          tg ← take_first (fst r) [IDENTIFIER];
          lf ← take_first (fst tg) [BOWL; NUMBER];
          op ← take_first (fst lf) [OPERATOR];
          rt ← take_first (fst op) [EMPTY; NUMBER; BOWL];
          Ok (fst rt, Some [("type", VStr "flap");
                            ("target", operand (snd tg));
                            ("left", operand (snd lf));
                            ("op", operand (snd op));
                            ("right", operand (snd rt))])
      | ADD | SUB =>
          let op_type :=
            if bool_decide (type token = ADD) then "add" else "sub" in
          r ← advance self;
          lf ← take_first (fst r) [BOWL; NUMBER; CELL_REF];
          rt ← take_first (fst lf) [NUMBER; BOWL; CELL_REF];
          Ok (fst rt, Some [("type", VStr op_type);
                            ("left", operand (snd lf));
                            ("right", operand (snd rt));
                            ("left_is_cell", VBool (is_cell (snd lf)));
                            ("right_is_cell", VBool (is_cell (snd rt)))])
      | MUL | DIV =>
          let op_type :=
            if bool_decide (type token = MUL) then "mul" else "div" in
          simple self op_type
      | BOB =>
          r ← advance self;
          ct ← take_first (fst r) [NUMBER];
          Ok (fst ct, Some [("type", VStr "bob");
                            ("count", operand (snd ct))])
      | PERISH => simple self "perish"
      | IDENTIFIER =>
          r ← advance self;
          match value (snd r) with
          | VStr name =>
              match chirps self !! name with
              | Some _ =>
                  Ok (fst r, Some [("type", VStr "chirp_call");
                                   ("name", VStr name)])
              | None => Ok (fst r, None)
              end
          | _ => Ok (fst r, None)
          end
      | _ =>
          r ← advance self;
          Ok (fst r, None)
      end
  end.

(** The loop of [parse]; [None] when [fuel] statements do not reach the
    end of the tokens. *)
Fixpoint parse_loop (fuel : nat) (self : ParrotParser)
         (code_blocks : list dict)
  : option (result (ParrotParser * list dict)) :=
  if is_at_end self then Some (Ok (self, code_blocks))
  else
    match fuel with
    | 0 => None
    | S fuel' =>
        match parse_statement self with
        | Raise e => Some (Raise e)
        | Ok (self', Some statement) =>
            parse_loop fuel' self' (code_blocks ++ [statement])
        | Ok (self', None) => parse_loop fuel' self' code_blocks
        end
    end.

Definition parse (self : ParrotParser)
  : option (result (ParrotParser * list dict)) :=
  match first_pass self with
  | None => None
  | Some (Raise e) => Some (Raise e)
  | Some (Ok self') => parse_loop (length (tokens self')) self' []
  end.

(** [compile_parrot] up to the parser: the parser afterwards and the
    top-level statements. *)
Definition front_end (code : string)
  : option (result (ParrotParser * list dict)) :=
  match tokenize code with
  | Raise e => Some (Raise e)
  | Ok toks => parse (new toks)
  end.

(** *** Vocabulary of the properties of the token-oriented front end *)

(** The top-level statements [parse] returns. *)
Definition statements (r : option (result (ParrotParser * list dict)))
  : option (result (list dict)) :=
  match r with
  | Some (Ok out) => Some (Ok (snd out))
  | Some (Raise e) => Some (Raise e)
  | None => None
  end.

(** The body that [first_pass] stores for the macro [name]. *)
Definition chirp_of (name : string)
           (r : option (result (ParrotParser * list dict)))
  : option (list Token) :=
  match r with
  | Some (Ok out) => chirps (fst out) !! name
  | _ => None
  end.

(** A source that defines one macro and has no top-level instruction. *)
Definition only_a_chirp : string :=
  Py.join nls ["chirp twice:"; "    peck"; "    peck"].



(** The superscript two, code point 178: [isdigit] holds for it, and it
    is no decimal digit. *)
Definition superscript_two : ascii := "178"%char.

(** *** Vocabulary of the further properties *)

(** A line that [tokenize] passes over before it looks for a block
    comment: a blank line, and outside a block comment a [:>] line. *)
Definition silent (line : string) : Prop :=
  Py.strip line = "" \/ Py.startswith ":>" (Py.strip line) = true.

(** The text between the quotes of a string literal: characters other
    than the quote and the backslash, and pairs of a backslash and any
    character. *)
Inductive literal_body : list ascii -> Prop :=
| body_end : literal_body []
| body_plain c body :
    c <> dq -> c <> backslash -> literal_body body ->
    literal_body (c :: body)
| body_escape c body :
    literal_body body -> literal_body (backslash :: c :: body).

(** The decimal text of [n], as a list of characters. *)
Definition digits (n : nat) : list ascii := Py.chars (Py.str_of_nat n).

(** [rest] does not go on with a character for which [p] holds. *)
Definition stops (p : ascii -> bool) (rest : list ascii) : Prop :=
  match rest with
  | [] => True
  | c :: _ => p c = false
  end.

(** The type of a word: its keyword type, or IDENTIFIER. *)
Definition word_type (word : string) : TokenType :=
  default IDENTIFIER (lookup_key word keywords).

(** The order of the tokens by line. *)
Definition earlier (a b : Token) : Prop := line_number a <= line_number b.

(** The four ways in which [tokenize] stops: the ValueError of [int], and
    the three messages before [sys.exit(1)]. *)
Definition lex_error (e : exn) : Prop :=
  e = ValueError \/
  exists n,
    e = SystemExit ("Error: Unclosed string literal at line "
                    +:+ Py.str_of_nat n) \/
    (exists word,
       e = SystemExit ("Error: Invalid cell reference '" +:+ word
                       +:+ "' at line " +:+ Py.str_of_nat n)) \/
    e = SystemExit ("Error: Invalid operator '!' at line "
                    +:+ Py.str_of_nat n).

(** The token at [i] has the type [t] and the IDENTIFIER after it names
    [name], a colon at its end taken off. *)
Definition named_at (toks : list Token) (t : TokenType) (i : nat)
           (name : string) : Prop :=
  exists tok nm,
    toks !! i = Some tok /\ type tok = t /\
    toks !! (i + 1) = Some nm /\ type nm = IDENTIFIER /\
    strip_colon (value nm) = Ok name.

(** What [first_pass] has collected comes from declarations in the token
    list. *)
Definition collected_ok (self : ParrotParser) : Prop :=
  (forall l, l ∈ labels self -> exists i, named_at (tokens self) PERCH i l) /\
  (forall k body, chirps self !! k = Some body ->
     exists i, named_at (tokens self) CHIRP i k /\
               body = body_run (skipn (i + 2) (tokens self))) /\
  (forall k v, stomachs self !! k = Some v ->
     exists i tok, tokens self !! i = Some tok /\ type tok = STOMACH /\
       ((type_at self (i + 1) IDENTIFIER = true /\
         value_at self (i + 1) = VStr k /\ v = VNone) \/
        (type_at self (i + 1) NUMBER = true /\
         type_at self (i + 2) IDENTIFIER = true /\
         value_at self (i + 2) = VStr k /\ v = value_at self (i + 1)))).

(** What [tokenize] puts in an IDENTIFIER. *)
Definition wt (tok : Token) : Prop :=
  type tok = IDENTIFIER -> exists s, value tok = VStr s.

(** The two messages that [parse_statement] prints before
    [sys.exit(1)]. *)
Definition parse_error (e : exn) : Prop :=
  exists n,
    e = SystemExit ("Error at line " +:+ Py.str_of_nat n
                    +:+ ": Expected stomach name") \/
    e = SystemExit ("Error at line " +:+ Py.str_of_nat n
                    +:+ ": Expected string after mimic").

(** What [match] hands back: a token of one of the types asked for, out
    of the token list. *)
Definition found_ok (self : ParrotParser) (alts : list TokenType)
           (found : option (TokenType * Token)) : Prop :=
  match found with
  | Some (t, tok) => In t alts /\ type tok = t /\ In tok (tokens self)
  | None => True
  end.

Definition raises_only (P : exn -> Prop) {A} (r : result A) : Prop :=
  match r with
  | Ok _ => True
  | Raise e => P e
  end.

End Tok.

(** * Properties *)

Lemma bind_ok {A B} (r : result A) (k : A -> result B) (b : B) :
  r ≫= k = Ok b -> exists a, r = Ok a /\ k a = Ok b.
Proof. destruct r as [a|e]; simpl; [eauto | discriminate]. Qed.

(** ** The line-oriented compilers *)

Module LineFacts.
Import Line.

(** The node of a line joins one container: the top-level sequence, with
    every macro body unchanged, or the body of the open macro, with the
    top-level sequence unchanged. *)
Lemma place_ast self loc indent nd self' :
  place self loc indent nd = Ok self' ->
  labels self' = labels self /\ label_count self' = label_count self /\
  (ast self' = ast self ++ [nd] /\ macros self' = macros self
   \/ ast self' = ast self /\
      exists m body, current_macro loc = Some m /\ m <> "" /\
                     macros self !! m = Some body /\
                     macros self' = <[m := body ++ [nd]]> (macros self)).
Proof.
  unfold place. destruct (current_macro loc) as [m|].
  - destruct (m == "") eqn:Em.
    + intros [= <-]. simpl. auto.
    + intros H. apply bind_ok in H as (t & _ & H).
      destruct (t <=? indent).
      * destruct (macros self !! m) as [body|] eqn:Eb; [|discriminate].
        injection H as <-. simpl. repeat split; auto. right. split; auto.
        exists m, body. repeat split; auto.
        intros ->. discriminate.
      * injection H as <-. simpl. auto.
  - intros [= <-]. simpl. auto.
Qed.

Lemma record_label_spec self i a self' :
  record_label self i a = Ok self' ->
  ast self' = ast self /\ macros self' = macros self /\
  label_count self' = label_count self /\
  labels self' =
    match perch_label (Node i a) with
    | Some l => <[l := length (ast self)]> (labels self)
    | None => labels self
    end.
Proof.
  unfold record_label, perch_label. simpl. destruct (i == "perch").
  - destruct a as [|a0 a]; [discriminate|]. intros [= <-]. simpl. auto.
  - intros [= <-]. auto.
Qed.

(** What one line does to the top-level sequence and the label table. *)
Lemma parse_line_spec self loc line self' loc' :
  parse_line (self, loc) line = Ok (self', loc') ->
  label_count self' = label_count self /\
  exists nd, line_node line = Some nd /\
    (instr nd = "chirp" /\ ast self' = ast self /\ labels self' = labels self
     \/ instr nd <> "chirp" /\
        labels self' =
          match perch_label nd with
          | Some l => <[l := length (ast self)]> (labels self)
          | None => labels self
          end /\
        (ast self' = ast self ++ [nd] \/ ast self' = ast self)).
Proof.
  unfold parse_line, line_node.
  destruct (Py.split (Py.strip line)) as [|i a]; [discriminate|].
  destruct (i == "chirp") eqn:Ei.
  - destruct a as [|a0 a]; [discriminate|]. intros [= <- <-]. simpl.
    split; [reflexivity|]. eexists. split; [reflexivity|]. left.
    apply String.eqb_eq in Ei. auto.
  - intros H. apply bind_ok in H as (self1 & H1 & H).
    apply bind_ok in H as (loc1 & _ & H).
    apply bind_ok in H as (self2 & H2 & H). injection H as <- <-.
    apply record_label_spec in H1 as (Ha & _ & Hc & Hl).
    apply place_ast in H2 as (Hl2 & Hc2 & Hp).
    split; [congruence|]. eexists. split; [reflexivity|]. right.
    apply String.eqb_neq in Ei. simpl. split; [assumption|].
    split; [congruence|].
    destruct Hp as [[Hp _]|[Hp _]]; [left|right]; congruence.
Qed.

Lemma count_label_snoc l seen line :
  count_label l (seen ++ [line]) =
  count_label l seen + (if names l line then 1 else 0).
Proof.
  unfold count_label. rewrite List.filter_app, length_app. simpl.
  destruct (names l line); reflexivity.
Qed.

Lemma labels_ok_step seen self loc line self' loc' :
  labels_ok seen self ->
  parse_line (self, loc) line = Ok (self', loc') ->
  labels_ok (seen ++ [line]) self'.
Proof.
  intros Hinv H. apply parse_line_spec in H as (_ & nd & Hnd & H).
  intros i nd0 l Hi Hl. rewrite count_label_snoc.
  unfold names, line_label. rewrite Hnd.
  destruct H as [(Hc & Ha & Hlab)|(Hc & Hlab & Ha)].
  - (* a chirp line *)
    rewrite Ha in Hi. rewrite Hlab.
    assert (perch_label nd = None) as ->.
    { unfold perch_label. rewrite Hc. reflexivity. }
    rewrite bool_decide_eq_false_2 by discriminate.
    rewrite Nat.add_0_r. eauto.
  - rewrite Hlab. destruct Ha as [Ha|Ha]; rewrite Ha in Hi.
    + (* the node joins the top-level sequence *)
      apply lookup_app_Some in Hi as [Hi|[Hlen Hi]].
      * destruct (Hinv _ _ _ Hi Hl) as [H1 H2].
        split; [lia|]. intros Hcount.
        destruct (perch_label nd) as [l'|] eqn:El'.
        -- case_bool_decide as Hd; [lia|].
           rewrite lookup_insert_ne by congruence. apply H2. lia.
        -- rewrite bool_decide_eq_false_2 in Hcount by discriminate.
           apply H2. lia.
      * destruct (i - length (ast self)) as [|k] eqn:Ek; [|destruct k; discriminate].
        injection Hi as <-. rewrite Hl.
        rewrite bool_decide_eq_true_2 by reflexivity.
        split; [lia|]. intros _. rewrite lookup_insert_eq. f_equal. lia.
    + (* the node joins a macro body *)
      destruct (Hinv _ _ _ Hi Hl) as [H1 H2].
      split; [lia|]. intros Hcount.
      destruct (perch_label nd) as [l'|] eqn:El'.
      * case_bool_decide as Hd; [lia|].
        rewrite lookup_insert_ne by congruence. apply H2. lia.
      * rewrite bool_decide_eq_false_2 in Hcount by discriminate.
        apply H2. lia.
Qed.

Lemma labels_ok_lines lines : forall seen st st',
  labels_ok seen (fst st) ->
  parse_lines st lines = Ok st' ->
  labels_ok (seen ++ lines) (fst st').
Proof.
  induction lines as [|line lines IH]; intros seen st st' Hinv H.
  - injection H as <-. rewrite app_nil_r. assumption.
  - simpl in H. apply bind_ok in H as ([self1 loc1] & H1 & H).
    destruct st as [self loc].
    replace (seen ++ line :: lines) with ((seen ++ [line]) ++ lines)
      by (rewrite <- app_assoc; reflexivity).
    eapply IH; [|exact H]. simpl. eapply labels_ok_step; eauto.
Qed.

Lemma parse_labels_ok self self' :
  parse self = Ok self' -> labels_ok (tokens self) self'.
Proof.
  unfold parse. intros H. apply bind_ok in H as (st & H & Hst).
  injection Hst as <-.
  apply (labels_ok_lines _ []) in H; [assumption|].
  intros i nd l Hi. simpl in Hi. discriminate.
Qed.

Lemma build_ir_prefix m nodes : forall i,
  (forall j nd, j <= i -> nodes !! j = Some nd -> m !! instr nd = None) ->
  build_ir m nodes !! i = nodes !! i.
Proof.
  induction nodes as [|nd rest IH]; intros i H; [reflexivity|].
  simpl. unfold expand. rewrite (H 0 nd) by (simpl; auto with lia).
  destruct i as [|k]; [reflexivity|]. simpl. apply IH.
  intros j nd' Hj Hnd. apply (H (S j)); [lia | exact Hnd].
Qed.

Lemma front_end_inv code c :
  front_end code = Ok c ->
  exists c1, parse (lex init code) = Ok c1 /\
             check_nodes (ast c1) = Ok tt /\ c = generate_ir c1.
Proof.
  unfold front_end. intros H. apply bind_ok in H as (c1 & H1 & H).
  apply bind_ok in H as (c2 & H2 & H). injection H as <-.
  unfold semantic_check in H2. apply bind_ok in H2 as ([] & Hc & H2).
  injection H2 as <-. eauto.
Qed.

(** *** C1: the label table and the flat IR *)

(** C1, refuted as stated: with a macro call before a [perch], the label
    table holds 1 for [start] while the flat IR has a [peck] at index 1
    and the [perch] at index 2. *)
Lemma C1_counterexample : ~ labels_index_flat_ir.
Proof.
  intros H.
  destruct (front_end call_before_perch) as [c|e] eqn:E;
    [|vm_compute in E; discriminate].
  destruct (H call_before_perch c "start" 1 E) as (_ & nd & Hnd & Hl).
  - vm_compute in E. injection E as <-. reflexivity.
  - vm_compute in E. injection E as <-. vm_compute in Hnd.
    injection Hnd as <-. vm_compute in Hl. discriminate.
Qed.

(** C1, amended: after IR building the label table is the one parsing
    left. For a label that exactly one [perch] line names and whose
    [perch] instruction is in the top-level sequence, the table holds the
    index of that instruction in the top-level sequence before expansion,
    a valid index there; it is also its index in the flat IR, and valid
    there, when no instruction at or before it in the top-level sequence
    is a macro call. *)
Theorem C1_labels_index_top_level code c l i nd :
  front_end code = Ok c ->
  ast c !! i = Some nd ->
  perch_label nd = Some l ->
  count_label l (tokens (lex init code)) = 1 ->
  labels c !! l = Some i /\ i < length (ast c) /\
  ((forall j nd', j <= i -> ast c !! j = Some nd' ->
                  macros c !! instr nd' = None) ->
   ir c !! i = Some nd /\ i < length (ir c)).
Proof.
  intros H Hi Hl Hcount.
  apply front_end_inv in H as (c1 & Hp & _ & ->).
  apply parse_labels_ok in Hp. simpl in *.
  destruct (Hp i nd l Hi Hl) as [_ Hlab].
  split; [auto|]. split; [eapply lookup_lt_Some; eauto|].
  intros Hcalls.
  assert (build_ir (macros c1) (ast c1) !! i = Some nd) as Hir.
  { rewrite build_ir_prefix; auto. }
  split; [exact Hir | eapply lookup_lt_Some; eauto].
Qed.

Lemma C1_labels_index_top_level_witness :
  labels (compiled six_lines) !! "start" = Some 0 /\
  0 < length (ast (compiled six_lines)) /\
  ((forall j nd', j <= 0 -> ast (compiled six_lines) !! j = Some nd' ->
                  macros (compiled six_lines) !! instr nd' = None) ->
   ir (compiled six_lines) !! 0 = Some (Node "perch" ["start:"]) /\
   0 < length (ir (compiled six_lines))).
Proof.
  apply (C1_labels_index_top_level six_lines (compiled six_lines) "start" 0
           (Node "perch" ["start:"])).
  - vm_compute. reflexivity.
  - vm_compute. reflexivity.
  - vm_compute. reflexivity.
  - vm_compute. reflexivity.
Defined.

(** *** C5: when a macro scope closes *)

Lemma pop_while_stops indent stack :
  Exists (fun w => w <= indent) stack ->
  exists w tl, pop_while indent stack = Ok (w :: tl) /\ w <= indent.
Proof.
  induction stack as [|t rest IH]; intros H; [inversion H|].
  simpl. destruct (indent <? t) eqn:Et.
  - apply Nat.ltb_lt in Et. apply IH.
    inversion H; subst; [lia | assumption].
  - apply Nat.ltb_ge in Et. eauto.
Qed.

(** The indent stack of [parse] starts as [[0]] and keeps this 0 at its
    bottom, so the popping loop always stops on a frame. *)
Lemma pop_while_bottom indent stack stack' :
  last stack = Some 0 -> pop_while indent stack = Ok stack' ->
  last stack' = Some 0.
Proof.
  induction stack as [|t rest IH]; [discriminate|]. simpl.
  destruct (indent <? t) eqn:Et; [|intros H [= <-]; exact H].
  destruct rest as [|t' rest'].
  - intros [= ->]. discriminate.
  - intros H. apply IH. exact H.
Qed.

Lemma parse_line_bottom self loc line self' loc' :
  last (indent_stack loc) = Some 0 ->
  parse_line (self, loc) line = Ok (self', loc') ->
  last (indent_stack loc') = Some 0.
Proof.
  intros Hb. unfold parse_line.
  destruct (Py.split (Py.strip line)) as [|i a]; [discriminate|].
  assert (forall w, last (w :: indent_stack loc) = Some 0) as Hpush.
  { intros w. destruct (indent_stack loc); [discriminate | exact Hb]. }
  destruct (i == "chirp").
  - destruct a; [discriminate|]. intros [= _ <-]. apply Hpush.
  - intros H. apply bind_ok in H as (self1 & _ & H).
    apply bind_ok in H as (loc1 & Hadj & H).
    apply bind_ok in H as (self2 & _ & H). injection H as _ <-.
    unfold adjust in Hadj. apply bind_ok in Hadj as (t & _ & Hadj).
    destruct (t <? line_indent line); [injection Hadj as <-; apply Hpush|].
    destruct (line_indent line <? t); [|injection Hadj as <-; exact Hb].
    apply bind_ok in Hadj as (stack & Hpop & Hadj). injection Hadj as <-.
    simpl. eapply pop_while_bottom; eauto.
Qed.

Lemma bottom_stops indent t rest :
  last (t :: rest) = Some 0 -> indent < t ->
  Exists (fun w => w <= indent) rest.
Proof.
  revert t. induction rest as [|t' rest IH]; intros t Hb Hlt.
  - injection Hb as ->. lia.
  - destruct (le_lt_dec t' indent) as [Hle|Hgt].
    + constructor. exact Hle.
    + apply Exists_cons_tl. apply (IH t'); [exact Hb | exact Hgt].
Qed.




(** *** C2: the semantic check and macro bodies *)

Lemma check_nodes_rejects nodes nd :
  In nd nodes -> instr nd = "flyto" -> args nd = [] ->
  exists nd', check_nodes nodes = Raise (SyntaxError nd').
Proof.
  induction nodes as [|n rest IH]; intros Hin Hi Ha.
  - inversion Hin.
  - simpl. destruct ((instr n == "flyto") && is_nil (args n)) eqn:E;
      [eauto|].
    destruct Hin as [->|Hin]; [|auto].
    rewrite Hi, Ha in E. discriminate.
Qed.

(** C2: an argument-less [flyto] in a macro body passes the semantic
    check, is spliced into the flat IR, and both backends then raise
    IndexError on [args[0]]. *)
Theorem C2_flyto_in_macro_body_unchecked :
  (exists c, parse (lex init flyto_in_macro) = Ok c /\
             semantic_check c = Ok c /\
             macros c !! "m" = Some [Node "flyto" []] /\
             ir (generate_ir c) = [Node "flyto" []]) /\
  compile_linux flyto_in_macro = Raise IndexError /\
  compile_windows flyto_in_macro = Raise IndexError.
Proof.
  split; [|split; vm_compute; reflexivity].
  destruct (parse (lex init flyto_in_macro)) as [c|e] eqn:E;
    vm_compute in E; [|discriminate].
  injection E as <-. eexists. split; [reflexivity|].
  repeat split; vm_compute; reflexivity.
Qed.

(** *** C3: macro expansion *)

Lemma build_ir_app m pre post :
  build_ir m (pre ++ post) = build_ir m pre ++ build_ir m post.
Proof.
  induction pre as [|nd pre IH]; simpl; [reflexivity|].
  rewrite IH, app_assoc. reflexivity.
Qed.

(** The expansion identity law: without macro calls nothing changes. *)
Lemma build_ir_no_calls m nodes :
  (forall nd, In nd nodes -> m !! instr nd = None) ->
  build_ir m nodes = nodes.
Proof.
  induction nodes as [|nd rest IH]; intros H; simpl; [reflexivity|].
  unfold expand. rewrite (H nd) by apply in_eq.
  simpl. f_equal. apply IH. intros nd' Hin. apply H.
  apply in_cons. exact Hin.
Qed.

Lemma build_ir_splice m pre call post body :
  m !! instr call = Some body ->
  build_ir m (pre ++ call :: post) =
  build_ir m pre ++ body ++ build_ir m post.
Proof.
  intros H. rewrite build_ir_app. simpl. unfold expand. rewrite H.
  reflexivity.
Qed.

(** C3, refuted as stated: with two macros of two instructions, each
    called once, the other call is expanded too. The top-level sequence
    has three instructions and the flat IR five, not 3 - 1 + 2. *)
Lemma C3_counterexample : ~ single_call_replaced.
Proof.
  intros H.
  destruct (H (compiled two_macros) [] (Node "twice" [])
              [Node "squawk" []; Node "pair" []]
              [Node "peck" []; Node "peck" []]) as [Hir _].
  - vm_compute. reflexivity.
  - vm_compute. reflexivity.
  - intros nd [<-|[<-|[]]]; discriminate.
  - vm_compute in Hir. discriminate.
Qed.

(** C3, amended: when the top-level sequence is [pre], a call of a macro
    with body [body], then [post], the flat IR is the expansion of [pre],
    then [body], then the expansion of [post], where the expansion
    replaces every instruction that names a macro by the body of that
    macro and keeps the others, in their order. When no instruction of
    [pre] and [post] names a macro, the flat IR is [pre], [body], [post],
    and for a body of two instructions its length is the top-level
    length minus 1 plus 2. *)
Theorem C3_single_call_spliced self pre call post body :
  ast self = pre ++ call :: post ->
  macros self !! instr call = Some body ->
  ir (generate_ir self) =
    build_ir (macros self) pre ++ body ++ build_ir (macros self) post /\
  ((forall nd, In nd (pre ++ post) -> macros self !! instr nd = None) ->
   ir (generate_ir self) = pre ++ body ++ post /\
   (length body = 2 ->
    length (ir (generate_ir self)) = length (ast self) - 1 + 2)).
Proof.
  intros Hast Hcall.
  assert (ir (generate_ir self) =
          build_ir (macros self) pre ++ body ++ build_ir (macros self) post)
    as Hsplice.
  { simpl. rewrite Hast. apply build_ir_splice. exact Hcall. }
  split; [exact Hsplice|]. intros Hothers.
  assert (ir (generate_ir self) = pre ++ body ++ post) as Hir.
  { rewrite Hsplice, !build_ir_no_calls; [reflexivity| |];
      intros nd Hin; apply Hothers, in_or_app; auto. }
  split; [exact Hir|]. intros Hlen.
  rewrite Hir, Hast, !length_app. simpl. lia.
Qed.

Lemma C3_single_call_spliced_witness :
  ir (generate_ir twice_called) =
    build_ir (macros twice_called) [Node "hop" []]
    ++ [Node "peck" []; Node "peck" []]
    ++ build_ir (macros twice_called) [Node "squawk" []] /\
  ir (generate_ir twice_called) =
    [Node "hop" []] ++ [Node "peck" []; Node "peck" []]
    ++ [Node "squawk" []] /\
  length (ir (generate_ir twice_called)) = length (ast twice_called) - 1 + 2.
Proof.
  destruct (C3_single_call_spliced twice_called [Node "hop" []]
              (Node "twice" []) [Node "squawk" []]
              [Node "peck" []; Node "peck" []]) as [Hsplice Halone].
  - vm_compute. reflexivity.
  - vm_compute. reflexivity.
  - destruct Halone as [Hir Hlen].
    + intros nd Hin.
      destruct Hin as [<-|[<-|[]]]; vm_compute; reflexivity.
    + split; [exact Hsplice|]. split; [exact Hir|]. apply Hlen. reflexivity.
Defined.

(** With the two macros, the call of [pair] after the call of [twice] is
    expanded as well. *)
Example both_calls_spliced :
  ir (generate_ir (compiled two_macros)) =
    [Node "peck" []; Node "peck" []; Node "squawk" [];
     Node "hop" []; Node "hop" []] /\
  length (ast (compiled two_macros)) = 3.
Proof. vm_compute. split; reflexivity. Qed.

(** *** C4: what the emitted text depends on *)

Lemma parse_lines_label_count lines : forall st st',
  parse_lines st lines = Ok st' ->
  label_count (fst st') = label_count (fst st).
Proof.
  induction lines as [|line lines IH]; intros st st' H.
  - injection H as <-. reflexivity.
  - simpl in H. apply bind_ok in H as ([self1 loc1] & H1 & H).
    destruct st as [self loc]. apply parse_line_spec in H1 as [Hc _].
    rewrite (IH _ _ H). exact Hc.
Qed.

(** A fresh compiler reaches [generate_asm] with [label_count = 0]. *)
Lemma front_end_label_count code c :
  front_end code = Ok c -> label_count c = 0.
Proof.
  intros H. apply front_end_inv in H as (c1 & Hp & _ & ->).
  unfold parse in Hp. apply bind_ok in Hp as (st & Hp & Hst).
  injection Hst as <-. apply parse_lines_label_count in Hp. exact Hp.
Qed.

(** The text depends on the compiler through [ir] and [label_count]
    only. *)
Lemma generate_asm_text prologue emit c1 c2 :
  ir c1 = ir c2 -> label_count c1 = label_count c2 ->
  text_of (generate_asm prologue emit c1)
  = text_of (generate_asm prologue emit c2).
Proof.
  intros Hir Hc. unfold text_of, generate_asm. rewrite Hir, Hc.
  destruct (emit_all emit (prologue, label_count c2) (ir c2)); reflexivity.
Qed.

Lemma compile_linux_text code c :
  front_end code = Ok c ->
  compile_linux code = text_of (generate_asm_linux c).
Proof. intros H. unfold compile_linux. rewrite H. reflexivity. Qed.

Lemma compile_windows_text code c :
  front_end code = Ok c ->
  compile_windows code = text_of (generate_asm_windows c).
Proof. intros H. unfold compile_windows. rewrite H. reflexivity. Qed.


(** Two runs of the pipeline, each on a fresh compiler, whose front ends
    succeed with the same flat IR give the same result in both backends,
    the same text or the same exception. *)
Lemma fresh_runs_agree code1 code2 c1 c2 :
  front_end code1 = Ok c1 ->
  front_end code2 = Ok c2 ->
  ir c1 = ir c2 ->
  compile_linux code1 = compile_linux code2 /\
  compile_windows code1 = compile_windows code2.
Proof.
  intros H1 H2 Hir.
  rewrite (compile_linux_text _ _ H1), (compile_linux_text _ _ H2).
  rewrite (compile_windows_text _ _ H1), (compile_windows_text _ _ H2).
  pose proof (front_end_label_count _ _ H1) as L1.
  pose proof (front_end_label_count _ _ H2) as L2.
  split; apply generate_asm_text; congruence.
Qed.

(** *** C8: the six-line program through the Linux backend *)

(** C8: what the Linux compiler writes for the six-line program. The
    label line is [.start::], with the colon of the source line kept and
    one more appended, and the string constant is the second line of the
    data section. *)
Theorem C8_six_lines_linux : compile_linux six_lines = Ok six_lines_asm.
Proof. vm_compute. reflexivity. Qed.

(** *** C9: opcodes outside the backends' mapping *)





Ltac opcode_case i s :=
  let E := fresh "E" in
  destruct (i == s) eqn:E;
  [ apply String.eqb_eq in E; subst i; cbn | ].

Ltac all_opcodes i :=
  opcode_case i "peck"; [|opcode_case i "scratch"; [|
  opcode_case i "hop"; [|opcode_case i "hopback"; [|
  opcode_case i "squawk"; [|opcode_case i "mimic"; [|
  opcode_case i "gulp"; [|opcode_case i "devour"; [|
  opcode_case i "regurgitate"; [|opcode_case i "flyto"; [|
  opcode_case i "perch"; [|opcode_case i "flap"; [|
  opcode_case i "add"; [|opcode_case i "sub"; [|
  opcode_case i "bob"; [|opcode_case i "preen"; [|
  opcode_case i "poop"; [|opcode_case i "perish"; [|
  ]]]]]]]]]]]]]]]]]].

Ltac split_args a :=
  destruct a as [|? [|? [|? [|? [|? ?]]]]]; cbn.

(** Each branch of [generate_asm] raises what [failure] says, and nothing
    when it says nothing. *)
Lemma emit_linux_outcome e nd : outcome (failure nd) (emit_linux e nd).
Proof.
  destruct nd as [i a], e as [asm count].
  unfold outcome, failure, emit_linux. simpl.
  all_opcodes i; try (eexists; reflexivity);
    try (split_args a; try (eexists; reflexivity); try reflexivity).
  all: match goal with
       | |- context [jmp_table ?op] =>
           destruct (jmp_table op); cbn; [eexists|]; reflexivity
       | |- context [?dest == "bowl"] =>
           destruct (dest == "bowl"); eexists; reflexivity
       end.
Qed.

Lemma emit_windows_outcome e nd : outcome (failure nd) (emit_windows e nd).
Proof.
  destruct nd as [i a], e as [asm count].
  unfold outcome, failure, emit_windows. simpl.
  all_opcodes i; try (eexists; reflexivity);
    try (split_args a; try (eexists; reflexivity); try reflexivity).
  all: match goal with
       | |- context [jmp_table ?op] =>
           destruct (jmp_table op); cbn; [eexists|]; reflexivity
       | |- context [?dest == "bowl"] =>
           destruct (dest == "bowl"); eexists; reflexivity
       end.
Qed.

Lemma emit_all_outcome emit :
  (forall e nd, outcome (failure nd) (emit e nd)) ->
  forall nodes e, outcome (first_failure nodes) (emit_all emit e nodes).
Proof.
  intros Hemit. induction nodes as [|nd rest IH]; intros e; simpl.
  - eexists. reflexivity.
  - specialize (Hemit e nd). destruct (failure nd) as [x|]; simpl in *.
    + rewrite Hemit. reflexivity.
    + destruct Hemit as [e' ->]. simpl. apply IH.
Qed.



Example unrecognized_only :
  text_of (generate_asm_linux
             (set_ir init [Node "mul" []; Node "twice" []; Node "stomach" ["nest"]]))
  = Ok (Py.join nls linux_prologue).
Proof. vm_compute. reflexivity. Qed.

End LineFacts.

(** ** The token-oriented front end *)

Module TokFacts.
Import Tok.

(** *** The loops of the parser reach the end of the tokens *)

Lemma declare_stomach_frame self name size self' :
  declare_stomach self name size = Ok self' ->
  tokens self' = tokens self /\ current self' = current self.
Proof.
  unfold declare_stomach. destruct name as [|n| | |]; try discriminate.
  - intros [= <-]. auto.
  - destruct (n == ""); intros [= <-]; auto.
Qed.

Lemma first_pass_step_advances self i tok self' i' :
  first_pass_step self i tok = Ok (self', i') ->
  i < i' /\ tokens self' = tokens self /\ current self' = current self.
Proof.
  unfold first_pass_step. intros H.
  repeat match type of H with
         | (if ?b then _ else _) = _ => destruct b
         | (_ ≫= _) = Ok _ => apply bind_ok in H as (? & ? & H)
         end;
    try injection H as <- <-; simpl;
    try match goal with
        | Hd : declare_stomach _ _ _ = Ok _ |- _ =>
            apply declare_stomach_frame in Hd as [-> ->]
        end;
    (split; [lia | auto]).
Qed.

Lemma first_pass_loop_total fuel : forall self i,
  length (tokens self) <= i + fuel ->
  is_Some (first_pass_loop fuel self i).
Proof.
  induction fuel as [|fuel IH]; intros self i Hlen; simpl.
  - rewrite (lookup_ge_None_2 (tokens self) i) by lia. eauto.
  - destruct (tokens self !! i) as [tok|]; [|eauto].
    destruct (first_pass_step self i tok) as [[self' i']|e] eqn:E; [|eauto].
    apply first_pass_step_advances in E as (Hi & Ht & _).
    apply IH. rewrite Ht. lia.
Qed.

Lemma first_pass_total self : is_Some (first_pass self).
Proof. apply first_pass_loop_total. lia. Qed.

Lemma first_pass_loop_tokens fuel : forall self i self',
  first_pass_loop fuel self i = Some (Ok self') ->
  tokens self' = tokens self /\ current self' = current self.
Proof.
  induction fuel as [|fuel IH]; intros self i self'; simpl.
  - destruct (tokens self !! i); [discriminate|]. intros [= <-]. auto.
  - destruct (tokens self !! i) as [tok|]; [|intros [= <-]; auto].
    destruct (first_pass_step self i tok) as [[s1 i1]|e] eqn:E;
      [|discriminate].
    intros H. apply IH in H as [-> ->].
    apply first_pass_step_advances in E as (_ & -> & ->). auto.
Qed.

Lemma advance_spec self self' tok :
  is_at_end self = false ->
  advance self = Ok (self', tok) ->
  self' = set_current self (current self + 1) /\
  tokens self !! current self = Some tok.
Proof.
  unfold advance. intros ->. unfold previous. simpl.
  rewrite Nat.add_1_r. simpl.
  destruct (tokens self !! current self); [|discriminate].
  intros [= <- <-]. auto.
Qed.

Lemma check_not_at_end self t : check self t = true -> is_at_end self = false.
Proof. unfold check, peek. destruct (is_at_end self); [discriminate|auto]. Qed.

Lemma take_first_spec alts : forall self self' found,
  take_first self alts = Ok (self', found) ->
  tokens self' = tokens self /\ current self <= current self'.
Proof.
  induction alts as [|t alts IH]; intros self self' found; simpl.
  - intros [= <- <-]. auto.
  - destruct (check self t) eqn:E; [|apply IH].
    intros H. apply bind_ok in H as ([s1 tok] & H1 & H).
    injection H as <- <-. apply check_not_at_end in E.
    apply advance_spec in H1 as [-> _]; [|exact E]. simpl. split; [auto|lia].
Qed.

Lemma peek_not_at_end self tok :
  peek self = Some tok -> is_at_end self = false.
Proof. unfold peek. destruct (is_at_end self); [discriminate|auto]. Qed.

(** Every statement consumes at least one token. *)
Lemma parse_statement_advances self self' stmt :
  is_at_end self = false ->
  parse_statement self = Ok (self', stmt) ->
  tokens self' = tokens self /\ current self < current self'.
Proof.
  intros Hend. unfold parse_statement, simple.
  destruct (peek self) as [token|] eqn:Hpeek.
  2:{ unfold peek in Hpeek. rewrite Hend in Hpeek.
      apply lookup_ge_None_1 in Hpeek. unfold is_at_end in Hend.
      apply Nat.leb_gt in Hend. lia. }
  intros H.
  destruct (type token);
    repeat match type of H with
           | (_ ≫= _) = Ok _ =>
               let r := fresh "r" in
               let Hr := fresh "Hr" in
               apply bind_ok in H as (r & Hr & H)
           | match ?x with _ => _ end = _ =>
               destruct x eqn:?; try discriminate
           end;
    injection H as <- <-;
    repeat match goal with
           | Ha : advance self = Ok ?r |- _ =>
               destruct r;
               apply (advance_spec _ _ _ Hend) in Ha as [-> _]
           | Ht : take_first _ _ = Ok ?r |- _ =>
               destruct r; apply take_first_spec in Ht; simpl in Ht
           | Hm : match ?o with Some _ => _ | None => Ok _ end = Ok _
             |- _ => destruct o; [|injection Hm as <-]
           | Ht : _ ≫= _ = Ok _ |- _ => clear Ht
           | Ht : _ /\ _ |- _ => destruct Ht
           end;
    simpl in *; split; try congruence; try lia.
Qed.

Lemma parse_loop_total fuel : forall self code_blocks,
  length (tokens self) <= current self + fuel ->
  is_Some (parse_loop fuel self code_blocks).
Proof.
  induction fuel as [|fuel IH]; intros self blocks Hlen; simpl.
  - destruct (is_at_end self) eqn:E; [eauto|].
    apply Nat.leb_gt in E. lia.
  - destruct (is_at_end self) eqn:E; [eauto|].
    destruct (parse_statement self) as [[self' stmt]|e] eqn:Hs; [|eauto].
    apply (parse_statement_advances _ _ _ E) in Hs as [Ht Hc].
    destruct stmt; apply IH; rewrite Ht; lia.
Qed.

(** [parse] returns: the fuel it is given is enough. *)
Lemma parse_total self : is_Some (parse self).
Proof.
  unfold parse. destruct (first_pass_total self) as [r Hr].
  unfold first_pass in *. rewrite Hr. destruct r as [self'|e]; [|eauto].
  apply parse_loop_total. lia.
Qed.

Lemma front_end_total code : is_Some (front_end code).
Proof.
  unfold front_end. destruct (tokenize code); [apply parse_total | eauto].
Qed.

(** *** C10: characters no branch of the lexer takes *)




Example superscript_in_a_line :
  tokenize (Py.str (Py.chars "peck " ++ [superscript_two]))
  = Raise ValueError.
Proof. vm_compute. reflexivity. Qed.

Example tokenize_skips :
  tokenize "peck @ $ , peck" =
  Ok [ mkToken PECK (VStr "peck") 1 (Some 0); Tk PECK (VStr "peck") 1 ].
Proof. vm_compute. reflexivity. Qed.

(** *** C6, C7: what the token-oriented parser does with a chirp
    definition and with missing operands *)

(** C6: a source that holds one chirp definition and nothing else. The
    body tokens are stored under the macro and parsed again as top-level
    statements; the name in the definition is parsed as a call. *)
Theorem C6_chirp_body_also_top_level :
  chirp_of "twice" (front_end only_a_chirp) =
    Some [ Tk IDENTIFIER (VStr ":") 1;
           mkToken PECK (VStr "peck") 2 (Some 1);
           mkToken PECK (VStr "peck") 3 (Some 1) ] /\
  statements (front_end only_a_chirp) =
    Some (Ok [ [("type", VStr "chirp_call"); ("name", VStr "twice")];
               [("type", VStr "peck")];
               [("type", VStr "peck")] ]).
Proof. split; vm_compute; reflexivity. Qed.

(** C7: a [flap] with its label only is parsed into a statement whose
    other operands are [None], with no error, while a [mimic] without
    its string is a reported error; the line-oriented compilers accept
    the same line and raise ValueError in [generate_asm]. *)
Theorem C7_flap_missing_operands_accepted :
  statements (front_end "flap start") =
    Some (Ok [ [("type", VStr "flap"); ("target", VStr "start");
                ("left", VNone); ("op", VNone); ("right", VNone)] ]) /\
  statements (front_end "mimic") =
    Some (Raise (SystemExit
                   "Error at line 1: Expected string after mimic")) /\
  (exists c, Line.front_end "flap start" = Ok c) /\
  Line.compile_linux "flap start" = Raise ValueError /\
  Line.compile_windows "flap start" = Raise ValueError.
Proof.
  repeat split; try (vm_compute; reflexivity).
  destruct (Line.front_end "flap start") as [c|e] eqn:E; [eauto|].
  vm_compute in E. discriminate.
Qed.

End TokFacts.

(** ** Strings *)

Module PyFacts.

Lemma chars_str l : Py.chars (Py.str l) = l.
Proof. apply list_ascii_of_string_of_list_ascii. Qed.

Lemma str_chars s : Py.str (Py.chars s) = s.
Proof. apply string_of_list_ascii_of_string. Qed.

Lemma dropwhile_twice p l :
  Py.dropwhile p (Py.dropwhile p l) = Py.dropwhile p l.
Proof.
  induction l as [|c tl IH]; simpl; [reflexivity|].
  destruct (p c) eqn:E; [exact IH|]. simpl. rewrite E. reflexivity.
Qed.

Lemma dropwhile_head p l c tl :
  Py.dropwhile p l = c :: tl -> p c = false.
Proof.
  induction l as [|d l IH]; simpl; [discriminate|].
  destruct (p d) eqn:E; [exact IH|]. intros [= <- _]. exact E.
Qed.

Lemma rstrip_by_twice p s :
  Py.rstrip_by p (Py.rstrip_by p s) = Py.rstrip_by p s.
Proof.
  unfold Py.rstrip_by. rewrite chars_str, rev_involutive, dropwhile_twice.
  reflexivity.
Qed.

Lemma strip_rstrip s : Py.strip (Py.rstrip s) = Py.strip s.
Proof.
  unfold Py.strip, Py.strip_by, Py.rstrip. rewrite rstrip_by_twice.
  reflexivity.
Qed.

Lemma split_run_open cur l : cur <> [] -> Py.split_run cur l <> [].
Proof.
  revert cur. induction l as [|c tl IH]; intros cur Hc; simpl.
  - destruct cur; [contradiction | discriminate].
  - destruct (Py.isspace c).
    + destruct cur; [contradiction | discriminate].
    + apply IH. discriminate.
Qed.

Lemma split_strip_nonempty s :
  Py.strip s <> "" -> Py.split (Py.strip s) <> [].
Proof.
  intros Hne. unfold Py.split.
  destruct (Py.chars (Py.strip s)) as [|c tl] eqn:E.
  - exfalso. apply Hne. rewrite <- (str_chars (Py.strip s)), E. reflexivity.
  - assert (Py.isspace c = false) as Hc.
    { unfold Py.strip, Py.strip_by, Py.lstrip_by in E.
      rewrite chars_str in E. eapply dropwhile_head. exact E. }
    simpl. rewrite Hc. apply split_run_open. discriminate.
Qed.

Lemma dropwhile_nil p l : Py.dropwhile p l = [] -> forallb p l = true.
Proof.
  induction l as [|c tl IH]; simpl; [reflexivity|].
  destruct (p c); [exact IH | discriminate].
Qed.

Lemma dropwhile_all p l : forallb p l = true -> Py.dropwhile p l = [].
Proof.
  induction l as [|c tl IH]; simpl; [reflexivity|].
  destruct (p c); [exact IH | discriminate].
Qed.

Lemma forallb_rev {A} (p : A -> bool) l : forallb p (rev l) = forallb p l.
Proof.
  induction l as [|c tl IH]; simpl; [reflexivity|].
  rewrite forallb_app, IH. simpl. rewrite andb_true_r, andb_comm.
  reflexivity.
Qed.

Lemma strip_empty_all_space s :
  Py.strip s = "" -> forallb Py.isspace (Py.chars s) = true.
Proof.
  unfold Py.strip, Py.strip_by, Py.lstrip_by, Py.rstrip_by. intros H.
  apply (f_equal Py.chars) in H. rewrite !chars_str in H. simpl in H.
  destruct (Py.dropwhile Py.isspace (rev (Py.chars s))) as [|c tl] eqn:E.
  - apply dropwhile_nil in E. rewrite forallb_rev in E. exact E.
  - exfalso. pose proof E as Hc.
    assert (Py.isspace c = false) as Hf.
    { clear H Hc. revert E. generalize (rev (Py.chars s)).
      induction l as [|d l IH]; simpl; [discriminate|].
      destruct (Py.isspace d) eqn:Ed; [exact IH|].
      intros [= <- _]. exact Ed. }
    apply dropwhile_nil in H. rewrite forallb_rev in H. simpl in H.
    rewrite Hf in H. discriminate.
Qed.

End PyFacts.

(** ** The line compilers, further *)

Module LineMore.
Import Line LineFacts PyFacts.

(** *** Lines that [lex] keeps *)

Lemma lexed_line_kept code line :
  In line (tokens (lex init code)) ->
  exists l0, line = Py.rstrip l0 /\ keep_line l0 = true.
Proof.
  simpl. intros H. apply in_map_iff in H as (l0 & <- & H).
  apply filter_In in H as [_ Hk]. eauto.
Qed.

Lemma kept_line_facts l0 :
  keep_line l0 = true ->
  Py.strip (Py.rstrip l0) <> "" /\
  Py.startswith ":>" (Py.strip (Py.rstrip l0)) = false /\
  Py.rstrip (Py.rstrip l0) = Py.rstrip l0 /\
  exists i a, line_node (Py.rstrip l0) = Some (Node i a).
Proof.
  unfold keep_line. intros Hk.
  apply andb_prop in Hk as [H1 H2].
  apply negb_true_iff in H1, H2. rewrite strip_rstrip.
  apply String.eqb_neq in H1.
  split; [exact H1|]. split; [exact H2|].
  split; [apply rstrip_by_twice|].
  unfold line_node. rewrite strip_rstrip.
  pose proof (split_strip_nonempty _ H1) as Hs.
  destruct (Py.split (Py.strip l0)) as [|i a]; [contradiction|]. eauto.
Qed.

(** Every line that [lex] keeps has something other than white space in
    it, is no [:>] comment, has no white space at its end, and splits
    into an instruction and its arguments: the [parts[0]] of [parse] is
    never out of range. *)
Theorem lexed_lines_have_an_instruction code line :
  In line (tokens (lex init code)) ->
  Py.strip line <> "" /\
  Py.startswith ":>" (Py.strip line) = false /\
  Py.rstrip line = line /\
  exists i a, line_node line = Some (Node i a).
Proof.
  intros H. apply lexed_line_kept in H as (l0 & -> & Hk).
  apply kept_line_facts. exact Hk.
Qed.

Lemma lexed_lines_have_an_instruction_witness :
  Py.strip "  hop" <> "" /\
  Py.startswith ":>" (Py.strip "  hop") = false /\
  Py.rstrip "  hop" = "  hop" /\
  exists i a, line_node "  hop" = Some (Node i a).
Proof.
  apply (lexed_lines_have_an_instruction
           (Py.join nls [":> jump"; "  hop  "; ""]) "  hop").
  vm_compute. left. reflexivity.
Defined.

(** *** When [parse] raises *)

Lemma parse_line_bare st line :
  bare_line line -> parse_line st line = Raise IndexError.
Proof.
  intros (nd & Hnd & Hb). destruct st as [self loc].
  unfold line_node in Hnd. unfold parse_line.
  destruct (Py.split (Py.strip line)) as [|i a]; [discriminate|].
  injection Hnd as <-. unfold bare in Hb. simpl in Hb.
  apply andb_prop in Hb as [Ha Hi]. destruct a; [|discriminate].
  destruct (i == "chirp") eqn:Ec; [reflexivity|].
  simpl in Hi. unfold record_label. rewrite Hi. reflexivity.
Qed.

Lemma adjust_ok indent loc :
  last (indent_stack loc) = Some 0 ->
  exists loc', adjust indent loc = Ok loc' /\
    last (indent_stack loc') = Some 0 /\
    (current_macro loc' = current_macro loc \/ current_macro loc' = None) /\
    top (indent_stack loc') = Ok (hd 0 (indent_stack loc')).
Proof.
  intros Hb. unfold adjust.
  destruct (indent_stack loc) as [|t rest] eqn:Es; [discriminate|]. simpl.
  destruct (t <? indent) eqn:E1.
  - eexists. split; [reflexivity|]. simpl. split; [exact Hb|]. auto.
  - destruct (indent <? t) eqn:E2.
    + apply Nat.ltb_lt in E2.
      destruct (pop_while_stops indent rest (bottom_stops _ _ _ Hb E2))
        as (w & tl & Hpop & _).
      rewrite Hpop. simpl. eexists. split; [reflexivity|]. simpl.
      split; [|auto].
      apply (pop_while_bottom indent rest); [|exact Hpop].
      destruct rest; [injection Hb as ->; lia | exact Hb].
    + exists loc. split; [reflexivity|]. rewrite Es. auto.
Qed.

Lemma parse_line_full st line :
  parse_inv st -> full_line line ->
  exists st', parse_line st line = Ok st' /\ parse_inv st'.
Proof.
  intros [Hb Hm] (nd & Hnd & Hf). destruct st as [self loc]. simpl in *.
  unfold line_node in Hnd. unfold parse_line.
  destruct (Py.split (Py.strip line)) as [|i a]; [discriminate|].
  injection Hnd as <-. unfold bare in Hf. simpl in Hf.
  destruct (i == "chirp") eqn:Ec.
  - destruct a as [|a0 a]; [simpl in Hf; discriminate|].
    eexists. split; [reflexivity|]. split; simpl.
    + destruct (indent_stack loc); [discriminate | exact Hb].
    + intros m [= <-] _. rewrite lookup_insert_eq. eauto.
  - assert (exists self1, record_label self i a = Ok self1 /\
              macros self1 = macros self) as (self1 & -> & Hm1).
    { unfold record_label. destruct (i == "perch") eqn:Ep; [|eauto].
      destruct a; [simpl in Hf; discriminate|]. eauto. }
    destruct (adjust_ok (line_indent line) loc Hb)
      as (loc1 & -> & Hb1 & Hcm & Htop).
    simpl. unfold place.
    destruct (current_macro loc1) as [m|] eqn:Em.
    2:{ simpl. eexists. split; [reflexivity|]. split; [exact Hb1|].
        simpl. rewrite Em. discriminate. }
    destruct (m == "") eqn:Ee.
    { simpl. eexists. split; [reflexivity|]. split; [exact Hb1|].
      simpl. rewrite Em. intros m' [= <-] Hne.
      apply String.eqb_eq in Ee. contradiction. }
    rewrite Htop. simpl.
    destruct (hd 0 (indent_stack loc1) <=? line_indent line).
    + assert (is_Some (macros self1 !! m)) as [body Hbody].
      { rewrite Hm1. apply Hm; [|apply String.eqb_neq; exact Ee].
        destruct Hcm as [Hc|Hn]; congruence. }
      rewrite Hbody. simpl. eexists. split; [reflexivity|].
      split; [exact Hb1|]. simpl. rewrite Em. intros m' [= <-] _.
      rewrite lookup_insert_eq. eauto.
    + simpl. eexists. split; [reflexivity|]. split; [exact Hb1|].
      simpl. rewrite Em. intros m' [= <-] Hne. rewrite Hm1. apply Hm; auto.
      destruct Hcm as [Hc|Hn]; congruence.
Qed.

Lemma parse_lines_outcome lines : forall st,
  parse_inv st ->
  Forall (fun line => bare_line line \/ full_line line) lines ->
  (Exists bare_line lines /\ parse_lines st lines = Raise IndexError) \/
  (Forall full_line lines /\ exists st', parse_lines st lines = Ok st').
Proof.
  induction lines as [|line lines IH]; intros st Hinv Hall.
  - right. split; [constructor | eexists; reflexivity].
  - inversion Hall as [|? ? [Hbare|Hfull] Hrest]; subst.
    + left. split; [constructor; exact Hbare|]. simpl.
      rewrite (parse_line_bare _ _ Hbare). reflexivity.
    + destruct (parse_line_full _ _ Hinv Hfull) as (st1 & H1 & Hinv1).
      simpl. rewrite H1. simpl.
      destruct (IH st1 Hinv1 Hrest) as [[Hex Hr]|[Hfa Hr]].
      * left. split; [apply Exists_cons_tl; exact Hex | exact Hr].
      * right. split; [constructor; assumption | exact Hr].
Qed.

(** [parse] after [lex] raises in one case only: it raises IndexError
    when a lexed line is a [chirp] or a [perch] without an argument, and
    returns when there is no such line. The indent stack is never
    emptied and the body of the current macro is never missing. *)
Theorem parse_raises_on_bare_lines_only code :
  (Exists bare_line (tokens (lex init code)) /\
   parse (lex init code) = Raise IndexError) \/
  (Forall full_line (tokens (lex init code)) /\
   exists c, parse (lex init code) = Ok c).
Proof.
  unfold parse.
  destruct (parse_lines_outcome (tokens (lex init code))
              (set_ast (lex init code) [], Locals [0] None))
    as [[Hex Hr]|[Hfa [st' Hr]]].
  - split; [reflexivity|]. simpl. intros m Hm. discriminate.
  - apply List.Forall_forall. intros line Hin.
    apply lexed_line_kept in Hin as (l0 & -> & Hk).
    destruct (kept_line_facts l0 Hk) as (_ & _ & _ & i & a & Hnd).
    destruct (bare (Node i a)) eqn:Eb; [left|right]; eexists; eauto.
  - left. split; [exact Hex|]. rewrite Hr. reflexivity.
  - right. split; [exact Hfa|]. rewrite Hr. simpl. eauto.
Qed.

(** *** Programs without macros *)

Lemma parse_line_no_chirp self loc line self' loc' :
  current_macro loc = None -> no_chirp line ->
  parse_line (self, loc) line = Ok (self', loc') ->
  current_macro loc' = None /\ macros self' = macros self /\
  ast self' = ast self ++ omap line_node [line].
Proof.
  intros Hcm Hnc. unfold no_chirp, line_node in Hnc. simpl.
  unfold parse_line, line_node.
  destruct (Py.split (Py.strip line)) as [|i a]; [discriminate|].
  specialize (Hnc _ eq_refl). simpl in Hnc.
  apply String.eqb_neq in Hnc. rewrite Hnc.
  intros H. apply bind_ok in H as (self1 & H1 & H).
  apply bind_ok in H as (loc1 & Hadj & H).
  apply bind_ok in H as (self2 & H2 & H). injection H as <- <-.
  apply record_label_spec in H1 as (Ha1 & Hm1 & _).
  assert (current_macro loc1 = None) as Hcm1.
  { unfold adjust in Hadj. apply bind_ok in Hadj as (t & _ & Hadj).
    destruct (t <? line_indent line); [injection Hadj as <-; exact Hcm|].
    destruct (line_indent line <? t); [|injection Hadj as <-; exact Hcm].
    apply bind_ok in Hadj as (stack & _ & Hadj). injection Hadj as <-.
    reflexivity. }
  unfold place in H2. rewrite Hcm1 in H2. injection H2 as <-. simpl.
  split; [exact Hcm1|]. split; congruence.
Qed.

Lemma parse_lines_no_chirp lines : forall self loc self' loc',
  current_macro loc = None -> Forall no_chirp lines ->
  parse_lines (self, loc) lines = Ok (self', loc') ->
  macros self' = macros self /\
  ast self' = ast self ++ omap line_node lines.
Proof.
  induction lines as [|line lines IH]; intros self loc self' loc' Hcm Hall H.
  - injection H as <- <-. rewrite app_nil_r. auto.
  - simpl in H. apply bind_ok in H as ([self1 loc1] & H1 & H).
    inversion Hall as [|? ? Hnc Hrest]; subst.
    apply (parse_line_no_chirp _ _ _ _ _ Hcm Hnc) in H1 as (Hcm1 & Hm1 & Ha1).
    apply (IH _ _ _ _ Hcm1 Hrest) in H as [Hm Ha].
    split; [congruence|]. rewrite Ha, Ha1, <- app_assoc.
    change (line :: lines) with ([line] ++ lines).
    rewrite omap_app. reflexivity.
Qed.

(** Without a [chirp] line the program goes through unchanged: no macro
    is defined, and the top-level sequence and the flat IR are the nodes
    of the lexed lines, one per line and in their order. *)
Theorem program_without_chirp_is_kept code c :
  front_end code = Ok c ->
  Forall no_chirp (tokens (lex init code)) ->
  macros c = ∅ /\
  ast c = omap line_node (tokens (lex init code)) /\
  ir c = ast c.
Proof.
  intros H Hall. apply front_end_inv in H as (c1 & Hp & _ & ->).
  unfold parse in Hp. apply bind_ok in Hp as ([self' loc'] & Hp & Hc).
  injection Hc as <-.
  apply parse_lines_no_chirp in Hp as [Hm Ha]; [|reflexivity|exact Hall].
  simpl in *. split; [exact Hm|]. split; [exact Ha|].
  apply build_ir_no_calls. intros nd _. rewrite Hm. apply lookup_empty.
Qed.

Lemma program_without_chirp_is_kept_witness :
  macros (compiled six_lines) = ∅ /\
  ast (compiled six_lines) = omap line_node (tokens (lex init six_lines)) /\
  ir (compiled six_lines) = ast (compiled six_lines).
Proof.
  apply (program_without_chirp_is_kept six_lines (compiled six_lines)).
  - vm_compute. reflexivity.
  - repeat constructor; intros nd Hnd; vm_compute in Hnd;
      injection Hnd as <-; discriminate.
Defined.

(** *** The semantic check *)

(** [semantic_check] returns the compiler as it is when every top-level
    [flyto] has an argument, and otherwise raises SyntaxError with the
    first [flyto] that has none. *)
Theorem semantic_check_finds_first_bare_flyto self :
  (Forall flyto_ok (ast self) /\ semantic_check self = Ok self) \/
  (exists pre nd post,
     ast self = pre ++ nd :: post /\ Forall flyto_ok pre /\
     instr nd = "flyto" /\ args nd = [] /\
     semantic_check self = Raise (SyntaxError nd)).
Proof.
  unfold semantic_check.
  induction (ast self) as [|n rest IH]; simpl.
  - left. split; [constructor | reflexivity].
  - destruct ((instr n == "flyto") && is_nil (args n)) eqn:E.
    + right. apply andb_prop in E as [Hi Ha].
      apply String.eqb_eq in Hi. destruct (args n) eqn:Ea; [|discriminate].
      exists [], n, rest. repeat split; auto.
    + assert (flyto_ok n) as Hok.
      { intros Hi Ha. rewrite Hi, Ha in E. discriminate. }
      destruct IH as [[Hall Hr]|(pre & nd & post & -> & Hpre & Hi & Ha & Hr)].
      * left. split; [constructor; assumption | exact Hr].
      * right. exists (n :: pre), nd, post.
        repeat split; auto.
Qed.

(** *** Macro expansion *)

(** The identity law of expansion: when no top-level instruction names a
    macro, the flat IR is the top-level sequence. *)
Theorem ir_without_calls_is_ast self :
  (forall nd, In nd (ast self) -> macros self !! instr nd = None) ->
  ir (generate_ir self) = ast self.
Proof. intros H. simpl. apply build_ir_no_calls. exact H. Qed.

Lemma ir_without_calls_is_ast_witness :
  ir (generate_ir (compiled unused_macro)) = ast (compiled unused_macro).
Proof.
  apply (ir_without_calls_is_ast (compiled unused_macro)).
  intros nd Hin. vm_compute in Hin. destruct Hin as [<-|[]].
  vm_compute. reflexivity.
Defined.

Lemma build_ir_keeps_body m nodes call body inner :
  In call nodes -> m !! instr call = Some body -> In inner body ->
  In inner (build_ir m nodes).
Proof.
  induction nodes as [|nd rest IH]; intros Hin Hb Hi; [destruct Hin|].
  simpl. apply in_or_app. destruct Hin as [->|Hin].
  - left. unfold expand. rewrite Hb. exact Hi.
  - right. apply IH; assumption.
Qed.

(** Expansion goes one level deep: every instruction of the body of a
    called macro is in the flat IR as it is, also one that names a macro
    itself. *)
Theorem nested_call_stays_unexpanded self call body inner :
  In call (ast self) ->
  macros self !! instr call = Some body ->
  In inner body ->
  In inner (ir (generate_ir self)).
Proof. intros. simpl. eapply build_ir_keeps_body; eauto. Qed.

Lemma nested_call_stays_unexpanded_witness :
  In (Node "inner" []) (ir (generate_ir (compiled nested_macros))).
Proof.
  apply (nested_call_stays_unexpanded (compiled nested_macros)
           (Node "outer" []) [Node "inner" []] (Node "inner" [])).
  - vm_compute. left. reflexivity.
  - vm_compute. reflexivity.
  - left. reflexivity.
Defined.

(** *** When [generate_asm] raises *)

(** The two backends complete on the same flat IRs, those whose
    [flyto], [perch] and [bob] have an argument, whose [flap] has four
    with a known operator, and whose [add] and [sub] have two; on any
    other IR both raise the exception of the first instruction that is
    not so. *)
Theorem backends_raise_alike (c : ParrotCompiler) :
  outcome (first_failure (ir c)) (text_of (generate_asm_linux c)) /\
  outcome (first_failure (ir c)) (text_of (generate_asm_windows c)).
Proof.
  unfold text_of, generate_asm_linux, generate_asm_windows, generate_asm.
  pose proof (emit_all_outcome _ emit_linux_outcome (ir c)
                (linux_prologue, label_count c)) as Hl.
  pose proof (emit_all_outcome _ emit_windows_outcome (ir c)
                (windows_prologue, label_count c)) as Hw.
  unfold outcome in *. destruct (first_failure (ir c)) as [x|].
  - rewrite Hl, Hw. split; reflexivity.
  - destruct Hl as [el ->], Hw as [ew ->]. split; eexists; reflexivity.
Qed.

(** *** The data section *)

Lemma insert_at_app {A} k (x : A) head rest :
  length head = k ->
  Py.insert_at k x (head ++ rest) = head ++ x :: rest.
Proof.
  intros <-. unfold Py.insert_at.
  rewrite firstn_app, skipn_app, Nat.sub_diag, firstn_all, skipn_all.
  simpl. rewrite app_nil_r. reflexivity.
Qed.

Ltac shape_done :=
  eexists; apply (f_equal2 pair);
  [ repeat (rewrite <- app_assoc || rewrite <- app_comm_cons); reflexivity
  | lia ].

Ltac shape_branch :=
  first
    [ shape_done
    | match goal with
      | |- context [arg0 ?a] => destruct a; cbn; [exact I | shape_done]
      | |- context [emit_flap ?a] =>
          destruct (emit_flap a); cbn; [shape_done | exact I]
      | |- context [emit_arith ?m ?a] =>
          destruct (emit_arith m a); cbn; [shape_done | exact I]
      end ].

Lemma emit_linux_shape head consts rest code n nd :
  length head = 1 ->
  shaped head consts rest n nd
         (emit_linux (head ++ consts ++ rest ++ code, n) nd).
Proof.
  intros Hlen. destruct nd as [i a]. unfold emit_linux. simpl.
  all_opcodes i; try shape_branch.
  - rewrite (insert_at_app 1 _ _ _ Hlen). shape_done.
  - unfold shaped. simpl.
    match goal with H : (i == "mimic") = false |- _ => rewrite H end.
    cbn. shape_done.
Qed.

Lemma emit_windows_shape head consts rest code n nd :
  length head = 4 ->
  shaped head consts rest n nd
         (emit_windows (head ++ consts ++ rest ++ code, n) nd).
Proof.
  intros Hlen. destruct nd as [i a]. unfold emit_windows. simpl.
  all_opcodes i; try shape_branch.
  - rewrite (insert_at_app 4 _ _ _ Hlen). shape_done.
  - unfold shaped. simpl.
    match goal with H : (i == "mimic") = false |- _ => rewrite H end.
    cbn. shape_done.
Qed.

Lemma data_lines_cons n nd rest :
  data_lines n (nd :: rest) =
  data_lines (length (data_lines n [nd]) + n) rest ++ data_lines n [nd].
Proof.
  simpl. destruct (instr nd == "mimic"); simpl;
    [reflexivity | rewrite app_nil_r; reflexivity].
Qed.

Lemma count_mimic_cons n nd rest :
  count_mimic (nd :: rest) = count_mimic rest + length (data_lines n [nd]).
Proof.
  unfold count_mimic. simpl. destruct (instr nd == "mimic"); simpl; lia.
Qed.

Lemma emit_all_shape emit head rest :
  (forall consts code n nd,
     shaped head consts rest n nd
            (emit (head ++ consts ++ rest ++ code, n) nd)) ->
  forall nodes consts code n e',
    emit_all emit (head ++ consts ++ rest ++ code, n) nodes = Ok e' ->
    exists code',
      e' = (head ++ (data_lines n nodes ++ consts) ++ rest ++ code',
            n + count_mimic nodes).
Proof.
  intros Hemit. induction nodes as [|nd nodes IH]; intros consts code n e' H.
  - injection H as <-. exists code. simpl. f_equal. unfold count_mimic.
    simpl. lia.
  - simpl in H. apply bind_ok in H as (e1 & H1 & H).
    specialize (Hemit consts code n nd). rewrite H1 in Hemit.
    destruct Hemit as [code1 ->]. apply IH in H as [code' ->].
    exists code'. rewrite (data_lines_cons n nd nodes).
    rewrite (count_mimic_cons n nd nodes). apply (f_equal2 pair); [|lia].
    repeat rewrite <- app_assoc. reflexivity.
Qed.

(** When [generate_asm] completes, [label_count] has grown by the number
    of [mimic] instructions and the lines are the prologue with one
    constant per [mimic] put in after its first line in the Linux file,
    after its fourth in the Windows file, the latest [mimic] first,
    followed by the instruction text. *)
Theorem mimic_constants_in_data_section (c : ParrotCompiler) :
  (forall out, generate_asm_linux c = Ok out ->
     label_count (fst out) = label_count c + count_mimic (ir c) /\
     exists code,
       asm_lines (fst out) =
       firstn 1 linux_prologue ++ data_lines (label_count c) (ir c)
       ++ skipn 1 linux_prologue ++ code) /\
  (forall out, generate_asm_windows c = Ok out ->
     label_count (fst out) = label_count c + count_mimic (ir c) /\
     exists code,
       asm_lines (fst out) =
       firstn 4 windows_prologue ++ data_lines (label_count c) (ir c)
       ++ skipn 4 windows_prologue ++ code).
Proof.
  split; intros out H;
    unfold generate_asm_linux, generate_asm_windows, generate_asm in H;
    apply bind_ok in H as (e & H & Hout); injection Hout as <-; simpl.
  - change linux_prologue
      with (firstn 1 linux_prologue ++ [] ++ skipn 1 linux_prologue ++ [])
      in H at 1.
    apply (emit_all_shape emit_linux _ _
             (fun consts code n nd =>
                emit_linux_shape (firstn 1 linux_prologue) consts
                  (skipn 1 linux_prologue) code n nd eq_refl)) in H
      as [code ->].
    simpl. split; [reflexivity|]. exists code.
    rewrite app_nil_r. reflexivity.
  - change windows_prologue
      with (firstn 4 windows_prologue ++ []
            ++ skipn 4 windows_prologue ++ [])
      in H at 1.
    apply (emit_all_shape emit_windows _ _
             (fun consts code n nd =>
                emit_windows_shape (firstn 4 windows_prologue) consts
                  (skipn 4 windows_prologue) code n nd eq_refl)) in H
      as [code ->].
    simpl. split; [reflexivity|]. exists code.
    rewrite app_nil_r. reflexivity.
Qed.

(** *** What [parse] stores *)

Lemma Exists_snoc {A} (P : A -> Prop) l x :
  Exists P (l ++ [x]) <-> Exists P l \/ P x.
Proof.
  rewrite List.Exists_app, List.Exists_cons, List.Exists_nil. tauto.
Qed.

Lemma stored_ok_step seen self loc line self' loc' :
  stored_ok seen self ->
  parse_line (self, loc) line = Ok (self', loc') ->
  stored_ok (seen ++ [line]) self'.
Proof.
  intros (Hdom & Hidx & Hast & Hmac) H. unfold parse_line in H.
  unfold stored_ok, line_label. setoid_rewrite Exists_snoc.
  unfold line_node at 1 3 5. unfold line_node in *.
  destruct (Py.split (Py.strip line)) as [|i a] eqn:Es; [discriminate|].
  destruct (i == "chirp") eqn:Ec.
  - destruct a as [|a0 a]; [discriminate|]. injection H as <- <-. simpl.
    apply String.eqb_eq in Ec. subst i.
    repeat split.
    + intros Hl. left. apply Hdom. exact Hl.
    + intros [Hl|Hl]; [apply Hdom; exact Hl | discriminate].
    + exact Hidx.
    + intros nd Hin. left. apply Hast. exact Hin.
    + intros m body nd Hm Hin.
      destruct (decide (Py.rstrip_char ":" a0 = m)) as [Heq|Hne].
      * rewrite Heq, lookup_insert_eq in Hm. injection Hm as <-.
        destruct Hin.
      * rewrite lookup_insert_ne in Hm by exact Hne. left. eauto.
  - apply bind_ok in H as (self1 & H1 & H).
    apply bind_ok in H as (loc1 & _ & H).
    apply bind_ok in H as (self2 & H2 & H). injection H as <- <-.
    apply record_label_spec in H1 as (Ha1 & Hm1 & _ & Hl1).
    apply place_ast in H2 as (Hl2 & _ & Hp).
    assert (length (ast self) <= length (ast self2)) as Hlen.
    { destruct Hp as [[-> _]|[-> _]]; rewrite Ha1, ?length_app; lia. }
    rewrite Hl2, Hl1.
    repeat split.
    + destruct (perch_label (Node i a)) as [l'|]; [|intros Hl; left; apply Hdom; exact Hl].
      destruct (decide (l' = l)) as [->|Hne]; [auto|].
      rewrite lookup_insert_ne by exact Hne. intros Hl. left. apply Hdom. exact Hl.
    + intros [Hl|Hl].
      * destruct (perch_label (Node i a)) as [l'|]; [|apply Hdom; exact Hl].
        destruct (decide (l' = l)) as [->|Hne];
          [rewrite lookup_insert_eq; eauto|].
        rewrite lookup_insert_ne by exact Hne. apply Hdom. exact Hl.
      * rewrite Hl, lookup_insert_eq. eauto.
    + intros l k. destruct (perch_label (Node i a)) as [l'|].
      * destruct (decide (l' = l)) as [->|Hne].
        -- rewrite lookup_insert_eq. intros [= <-]. exact Hlen.
        -- rewrite lookup_insert_ne by exact Hne. intros Hk.
           apply Hidx in Hk. lia.
      * intros Hk. apply Hidx in Hk. lia.
    + intros nd Hin. destruct Hp as [[Hp _]|[Hp _]]; rewrite Hp, Ha1 in Hin.
      * apply in_app_or in Hin as [Hin|[<-|[]]]; [left; auto | right; reflexivity].
      * left. auto.
    + intros m body nd Hm Hin.
      destruct Hp as [[_ Hp]|(_ & m' & body' & _ & _ & Hb & Hp)];
        rewrite Hp, ?Hm1 in Hm.
      * left. eauto.
      * destruct (decide (m' = m)) as [->|Hne].
        -- rewrite lookup_insert_eq in Hm. injection Hm as <-.
           rewrite Hm1 in Hb.
           apply in_app_or in Hin as [Hin|[<-|[]]];
             [left; eauto | right; reflexivity].
        -- rewrite lookup_insert_ne in Hm by exact Hne. left. eauto.
Qed.

Lemma stored_ok_lines lines : forall seen st st',
  stored_ok seen (fst st) ->
  parse_lines st lines = Ok st' ->
  stored_ok (seen ++ lines) (fst st').
Proof.
  induction lines as [|line lines IH]; intros seen st st' Hinv H.
  - injection H as <-. rewrite app_nil_r. assumption.
  - simpl in H. apply bind_ok in H as ([self1 loc1] & H1 & H).
    destruct st as [self loc].
    replace (seen ++ line :: lines) with ((seen ++ [line]) ++ lines)
      by (rewrite <- app_assoc; reflexivity).
    eapply IH; [|exact H]. simpl. eapply stored_ok_step; eauto.
Qed.

(** After [parse] on a fresh compiler the label table has exactly the
    labels of the [perch] lines as its keys, each with an index that is at
    most the length of the top-level sequence, and every instruction of
    the top-level sequence and of a macro body is the node of a lexed
    line: parsing invents no label and no instruction. *)
Theorem parse_stores_what_the_lines_say code c :
  parse (lex init code) = Ok c ->
  (forall l, is_Some (labels c !! l) <->
             Exists (fun line => line_label line = Some l)
                    (tokens (lex init code))) /\
  (forall l i, labels c !! l = Some i -> i <= length (ast c)) /\
  (forall nd, In nd (ast c) ->
              Exists (fun line => line_node line = Some nd)
                     (tokens (lex init code))) /\
  (forall m body nd, macros c !! m = Some body -> In nd body ->
                     Exists (fun line => line_node line = Some nd)
                            (tokens (lex init code))).
Proof.
  unfold parse. intros H. apply bind_ok in H as (st & H & Hst).
  injection Hst as <-.
  apply (stored_ok_lines _ []) in H; [exact H|].
  unfold stored_ok. cbn. repeat split.
  - intros [x Hx]. discriminate.
  - intros Hx. inversion Hx.
  - intros l i Hx. discriminate.
  - intros nd [].
  - intros m body nd Hx. discriminate.
Qed.

Lemma parse_stores_what_the_lines_say_witness :
  is_Some (labels (parsed six_lines) !! "start") /\
  Exists (fun line => line_node line = Some (Node "perish" []))
         (tokens (lex init six_lines)).
Proof.
  destruct (parse_stores_what_the_lines_say six_lines (parsed six_lines))
    as (Hl & _ & Hn & _).
  - vm_compute. reflexivity.
  - split.
    + apply Hl. apply Exists_exists. exists "perch start:".
      split; [vm_compute; left; reflexivity | vm_compute; reflexivity].
    + apply Hn. vm_compute. do 5 right. left. reflexivity.
Defined.

End LineMore.

(** ** The lexer *)

Module LexFacts.
Import Tok TokFacts PyFacts.

(** *** Comment and blank lines *)

Lemma tokenize_lines_silent lines : forall line_num multiline_comment,
  Forall silent lines ->
  tokenize_lines line_num multiline_comment lines = Ok [].
Proof.
  induction lines as [|line lines IH]; intros ln mc Hall; [reflexivity|].
  inversion Hall as [|? ? Hs Hrest]; subst. simpl.
  destruct (Py.strip line == "") eqn:E1; [apply IH; exact Hrest|].
  destruct mc; [apply IH; exact Hrest|].
  destruct (Py.contains "(:" line && negb (Py.contains ":)" line));
    [apply IH; exact Hrest|].
  destruct Hs as [Hs|Hs].
  - rewrite Hs in E1. discriminate.
  - rewrite Hs. apply IH. exact Hrest.
Qed.

(** A source of blank lines and [:>] comment lines only has no tokens. *)
Theorem comments_and_blanks_have_no_tokens code :
  Forall silent (Py.split_on nl code) -> tokenize code = Ok [].
Proof. apply tokenize_lines_silent. Qed.

Lemma comments_and_blanks_have_no_tokens_witness :
  tokenize (Py.join nls [":> a parrot"; ""; "   "; "  :> peck"]) = Ok [].
Proof.
  apply comments_and_blanks_have_no_tokens. vm_compute.
  repeat (apply List.Forall_cons;
          [ first [ left; reflexivity | right; reflexivity ] | ]).
  apply List.Forall_nil.
Defined.

(** *** Block comments *)

Lemma contains_closer_not_blank line :
  Py.contains ":)" line = true -> Py.strip line <> "".
Proof.
  intros Hc Hs. apply strip_empty_all_space in Hs.
  induction line as [|c tl IH]; simpl in *; [discriminate|].
  apply andb_prop in Hs as [Hsp Hrest].
  apply orb_prop in Hc as [Hc|Hc]; [|apply IH; assumption].
  destruct (ascii_dec ":" c) as [<-|Hne]; [discriminate|].
  destruct c as [[] [] [] [] [] [] [] []]; simpl in Hc; try discriminate;
    try congruence.
Qed.

Lemma tokenize_lines_hidden hidden : forall line_num rest,
  Forall (fun l => Py.contains ":)" l = false) hidden ->
  tokenize_lines line_num true (hidden ++ rest)
  = tokenize_lines (line_num + length hidden) true rest.
Proof.
  induction hidden as [|l hidden IH]; intros ln rest Hall; simpl.
  - rewrite Nat.add_0_r. reflexivity.
  - inversion Hall as [|? ? Hl Hrest]; subst. rewrite Hl. simpl.
    replace (ln + S (length hidden)) with (S ln + length hidden) by lia.
    destruct (Py.strip l == ""); apply IH; exact Hrest.
Qed.

(** A line that is not blank and holds [(:] and no [:)] starts a block
    comment: neither it, nor the lines after it up to the first line
    that holds [:)], nor that line give any token, whatever else they
    hold. *)
Theorem block_comment_hides_whole_lines line_num opener hidden closer rest :
  Py.strip opener <> "" ->
  Py.contains "(:" opener = true ->
  Py.contains ":)" opener = false ->
  Forall (fun l => Py.contains ":)" l = false) hidden ->
  Py.contains ":)" closer = true ->
  tokenize_lines line_num false (opener :: hidden ++ closer :: rest)
  = tokenize_lines (line_num + length hidden + 2) false rest.
Proof.
  intros Hne Ho Hoc Hh Hc. simpl.
  apply String.eqb_neq in Hne. rewrite Hne, Ho, Hoc. simpl.
  rewrite (tokenize_lines_hidden _ _ _ Hh). simpl.
  pose proof (contains_closer_not_blank _ Hc) as Hcb.
  apply String.eqb_neq in Hcb. rewrite Hcb, Hc. simpl.
  f_equal. lia.
Qed.

Lemma block_comment_hides_whole_lines_witness :
  tokenize_lines 1 false
    ("peck (: from here" :: ["hop"; ""; "mimic"] ++ "to here :) hop" :: ["peck"])
  = tokenize_lines (1 + length ["hop"; ""; "mimic"] + 2) false ["peck"].
Proof.
  apply block_comment_hides_whole_lines;
    first [ discriminate | reflexivity | repeat constructor ].
Defined.

(** *** Tokens that take several characters *)

Lemma scan_skip line_num pre rest :
  scan line_num (length pre) (pre ++ rest) = scan line_num 0 rest.
Proof. induction pre as [|c pre IH]; simpl; [reflexivity | exact IH]. Qed.

Lemma string_body_closed body rest :
  literal_body body -> string_body (body ++ dq :: rest) = Some body.
Proof.
  induction 1 as [|c body Hq Hb _ IH|c body _ IH]; simpl.
  - reflexivity.
  - apply Ascii.eqb_neq in Hq, Hb. rewrite Hq, Hb, IH. reflexivity.
  - rewrite IH. reflexivity.
Qed.

Lemma string_body_open body :
  literal_body body ->
  string_body body = None /\ string_body (body ++ [backslash]) = None.
Proof.
  induction 1 as [|c body Hq Hb _ [IH1 IH2]|c body _ [IH1 IH2]]; simpl.
  - auto.
  - apply Ascii.eqb_neq in Hq, Hb. rewrite Hq, Hb, IH1, IH2. auto.
  - rewrite IH1, IH2. auto.
Qed.

(** A string literal becomes one STRING token whose value is the text
    between the quotes as it is written, escapes included, and the lexer
    goes on after the closing quote. *)
Theorem string_literal_kept_verbatim line_num body rest :
  literal_body body ->
  scan line_num 0 (dq :: body ++ dq :: rest) =
  (toks ← scan line_num 0 rest;
   Ok (Tk STRING (VStr (Py.str body)) line_num :: toks)).
Proof.
  intros Hb. simpl. unfold lex_at.
  change (Py.isspace dq) with false. change (Ascii.eqb dq dq) with true.
  cbv iota. rewrite (string_body_closed _ rest Hb). simpl.
  replace (length body + 2 - 1) with (length (body ++ [dq]))
    by (rewrite length_app; simpl; lia).
  replace (body ++ dq :: rest) with ((body ++ [dq]) ++ rest)
    by (rewrite <- app_assoc; reflexivity).
  rewrite scan_skip. reflexivity.
Qed.

Lemma string_literal_kept_verbatim_witness :
  scan 3 0 (dq :: [ "a"; backslash; dq; "b" ]%char ++ dq :: Py.chars " peck")
  = (toks ← scan 3 0 (Py.chars " peck");
     Ok (Tk STRING (VStr (Py.str [ "a"; backslash; dq; "b" ]%char)) 3
         :: toks)).
Proof.
  apply (string_literal_kept_verbatim 3 [ "a"; backslash; dq; "b" ]%char).
  apply body_plain; [discriminate | discriminate |].
  apply body_escape. apply body_plain; [discriminate | discriminate |].
  apply body_end.
Defined.

(** A literal whose quote is not closed before the line ends stops the
    lexer with the message that names the line; a quote after a backslash
    closes nothing, and neither does a backslash that ends the line. *)
Theorem unclosed_string_is_reported line_num body :
  literal_body body ->
  scan line_num 0 (dq :: body) =
    Raise (SystemExit ("Error: Unclosed string literal at line "
                       +:+ Py.str_of_nat line_num)) /\
  scan line_num 0 (dq :: body ++ [backslash]) =
    Raise (SystemExit ("Error: Unclosed string literal at line "
                       +:+ Py.str_of_nat line_num)).
Proof.
  intros Hb. destruct (string_body_open body Hb) as [H1 H2].
  simpl. unfold lex_at.
  change (Py.isspace dq) with false. change (Ascii.eqb dq dq) with true.
  cbv iota. rewrite H1, H2. split; reflexivity.
Qed.

Lemma unclosed_string_is_reported_witness :
  scan 2 0 (dq :: [ "h"; "i"; backslash; dq ]%char) =
    Raise (SystemExit ("Error: Unclosed string literal at line "
                       +:+ Py.str_of_nat 2)) /\
  scan 2 0 (dq :: [ "h"; "i"; backslash; dq ]%char ++ [backslash]) =
    Raise (SystemExit ("Error: Unclosed string literal at line "
                       +:+ Py.str_of_nat 2)).
Proof.
  apply (unclosed_string_is_reported 2 [ "h"; "i"; backslash; dq ]%char).
  apply body_plain; [discriminate | discriminate |].
  apply body_plain; [discriminate | discriminate |].
  apply body_escape. apply body_end.
Defined.

(** *** Integer literals *)

Lemma takewhile_app p run rest :
  forallb p run = true -> stops p rest ->
  Py.takewhile p (run ++ rest) = run.
Proof.
  intros Hr Hs. induction run as [|c run IH]; simpl in *.
  - destruct rest as [|c rest]; [reflexivity|]. simpl in *.
    rewrite Hs. reflexivity.
  - apply andb_prop in Hr as [Hc Hr]. rewrite Hc, (IH Hr). reflexivity.
Qed.

Lemma int_run_uint d : forall a b,
  d <> Decimal.Nil \/ b = true ->
  Py.int_run (N.of_nat a) b (Py.chars (NilEmpty.string_of_uint d))
  = Some (N.of_nat (Nat.of_uint_acc d a)).
Proof.
  induction d as [|d IH|d IH|d IH|d IH|d IH|d IH|d IH|d IH|d IH|d IH];
    intros a b Hb.
  1:{ destruct Hb as [Hb| ->]; [contradiction | reflexivity]. }
  all: cbn [NilEmpty.string_of_uint Py.chars list_ascii_of_string
            Py.int_run Nat.of_uint_acc];
    rewrite Nat.tail_mul_spec;
    match goal with
    | |- context [Py.digit_val ?c] =>
        let v := eval vm_compute in (Py.digit_val c) in
        change (Py.digit_val c) with v
    end;
    cbv iota;
    match goal with
    | |- Py.int_run ?acc _ _ = Some (N.of_nat (Nat.of_uint_acc _ ?a')) =>
        replace acc with (N.of_nat a') by lia
    end;
    apply IH; auto.
Qed.

Lemma to_uint_not_nil n : Nat.to_uint n <> Decimal.Nil.
Proof.
  rewrite <- (Unsigned.of_to n) at 1. rewrite Unsigned.to_of.
  unfold Decimal.unorm. destruct (Decimal.nzhead (Nat.to_uint n)); discriminate.
Qed.

Lemma int_digits n : Py.int (digits n) = Some (N.of_nat n).
Proof.
  unfold Py.int, digits, Py.str_of_nat.
  pose proof (int_run_uint (Nat.to_uint n) 0 false
                (or_introl (to_uint_not_nil n))) as H.
  change (N.of_nat 0) with 0%N in H. rewrite H.
  change (Nat.of_uint_acc (Nat.to_uint n) 0)
    with (Nat.of_uint (Nat.to_uint n)).
  rewrite Unsigned.of_to. reflexivity.
Qed.

Lemma uint_all_digits d :
  forallb Py.isdigit (Py.chars (NilEmpty.string_of_uint d)) = true.
Proof. induction d; simpl; auto. Qed.

Lemma digits_cons n : exists c tl, digits n = c :: tl /\ Py.isdigit c = true.
Proof.
  unfold digits, Py.str_of_nat. pose proof (to_uint_not_nil n) as Hn.
  pose proof (uint_all_digits (Nat.to_uint n)) as Hd.
  destruct (Nat.to_uint n); try contradiction; simpl in *; eauto.
Qed.

Lemma digit_class c :
  Py.isdigit c = true -> Py.isspace c = false /\ Ascii.eqb c dq = false.
Proof.
  destruct c as [[] [] [] [] [] [] [] []]; vm_compute; intros H;
    try discriminate; auto.
Qed.

Lemma scan_cons line_num c tl :
  scan line_num 0 (c :: tl) =
  (r ← lex_at line_num c tl;
   toks ← scan line_num (snd r - 1) tl;
   Ok (match fst r with
       | Some t => t :: toks
       | None => toks
       end)).
Proof. reflexivity. Qed.

Lemma lex_at_digit line_num c tl :
  Py.isdigit c = true ->
  lex_at line_num c tl =
  match Py.int (Py.takewhile Py.isdigit (c :: tl)) with
  | Some n =>
      Ok (Some (Tk NUMBER (VInt n) line_num),
          length (Py.takewhile Py.isdigit (c :: tl)))
  | None => Raise ValueError
  end.
Proof.
  intros Hc. unfold lex_at. destruct (digit_class c Hc) as [-> ->].
  rewrite Hc. reflexivity.
Qed.

(** The decimal text of a number, followed by no further digit, becomes
    one NUMBER token that holds this number. ([int] is modelled without
    the limit that newer interpreters put on the number of digits.) *)
Theorem number_literal_round_trip line_num n rest :
  stops Py.isdigit rest ->
  scan line_num 0 (digits n ++ rest) =
  (toks ← scan line_num 0 rest;
   Ok (Tk NUMBER (VInt (N.of_nat n)) line_num :: toks)).
Proof.
  intros Hs. destruct (digits_cons n) as (c & tl & Hd & Hc).
  pose proof (takewhile_app Py.isdigit (digits n) rest) as Ht.
  pose proof (int_digits n) as Hi.
  pose proof (uint_all_digits (Nat.to_uint n)) as Ha.
  change (Py.chars (NilEmpty.string_of_uint (Nat.to_uint n)))
    with (digits n) in Ha.
  rewrite Hd in *.
  change ((c :: tl) ++ rest) with (c :: (tl ++ rest)) in *.
  rewrite scan_cons, (lex_at_digit _ _ _ Hc), (Ht Ha Hs), Hi.
  cbn [mbind result_bind fst snd length].
  replace (S (length tl) - 1) with (length tl) by lia.
  rewrite scan_skip. reflexivity.
Qed.

Lemma number_literal_round_trip_witness :
  scan 1 0 (digits 42 ++ Py.chars " peck") =
  (toks ← scan 1 0 (Py.chars " peck");
   Ok (Tk NUMBER (VInt (N.of_nat 42)) 1 :: toks)).
Proof. apply (number_literal_round_trip 1 42 (Py.chars " peck")). reflexivity. Defined.

(** *** Words *)

Lemma word_start_class c :
  is_word_start c = true ->
  Py.isspace c = false /\ Ascii.eqb c dq = false /\
  Py.isdigit c = false /\ is_word_char c = true.
Proof.
  destruct c as [[] [] [] [] [] [] [] []]; vm_compute; intros H;
    try discriminate; auto.
Qed.

Lemma lex_at_word line_num c tl :
  is_word_start c = true ->
  lex_at line_num c tl =
  let run := Py.takewhile is_word_char (c :: tl) in
  let word := Py.str run in
  if Py.startswith "#" word then
    match Py.int (tail run) with
    | Some n => Ok (Some (Tk CELL_REF (VInt n) line_num), length run)
    | None =>
        Raise (SystemExit ("Error: Invalid cell reference '" +:+ word
                           +:+ "' at line " +:+ Py.str_of_nat line_num))
    end
  else
    match lookup_key word keywords with
    | Some t => Ok (Some (Tk t (VStr word) line_num), length run)
    | None => Ok (Some (Tk IDENTIFIER (VStr word) line_num), length run)
    end.
Proof.
  intros Hc. unfold lex_at.
  destruct (word_start_class c Hc) as (-> & -> & -> & _).
  rewrite Hc. reflexivity.
Qed.

(** A word, that is a letter or an underscore and then letters, digits,
    underscores and [#] up to a character that is none of these, becomes
    one token that holds the whole word: of its keyword type when it is
    one of the twenty-five keywords, an IDENTIFIER otherwise. *)
Theorem word_is_one_token line_num c w rest :
  is_word_start c = true -> c <> "#"%char ->
  forallb is_word_char w = true ->
  stops is_word_char rest ->
  scan line_num 0 (c :: w ++ rest) =
  (toks ← scan line_num 0 rest;
   Ok (Tk (word_type (Py.str (c :: w))) (VStr (Py.str (c :: w))) line_num
       :: toks)).
Proof.
  intros Hc Hh Hw Hs.
  pose proof (takewhile_app is_word_char (c :: w) rest) as Ht.
  destruct (word_start_class c Hc) as (_ & _ & _ & Hcc).
  simpl forallb in Ht. rewrite Hcc, Hw in Ht. specialize (Ht eq_refl Hs).
  change ((c :: w) ++ rest) with (c :: (w ++ rest)) in Ht.
  rewrite scan_cons, (lex_at_word _ _ _ Hc). cbv zeta. rewrite Ht.
  assert (Py.startswith "#" (Py.str (c :: w)) = false) as ->.
  { unfold Py.startswith, Py.str.
    cbn [string_of_list_ascii String.prefix].
    destruct (ascii_dec "#" c); congruence. }
  unfold word_type.
  destruct (lookup_key (Py.str (c :: w)) keywords);
    cbn [mbind result_bind fst snd length default];
    replace (S (length w) - 1) with (length w) by lia;
    rewrite scan_skip; reflexivity.
Qed.

Lemma word_is_one_token_witness :
  scan 1 0 ("f"%char :: Py.chars "lap" ++ Py.chars " start") =
  (toks ← scan 1 0 (Py.chars " start");
   Ok (Tk (word_type (Py.str ("f"%char :: Py.chars "lap")))
          (VStr (Py.str ("f"%char :: Py.chars "lap"))) 1 :: toks)).
Proof.
  apply (word_is_one_token 1 "f" (Py.chars "lap") (Py.chars " start"));
    first [ reflexivity | discriminate ].
Defined.

Lemma digit_is_word_char c : Py.isdigit c = true -> is_word_char c = true.
Proof.
  destruct c as [[] [] [] [] [] [] [] []]; vm_compute; intros H;
    try discriminate; auto.
Qed.

Lemma digits_are_word_chars n : forallb is_word_char (digits n) = true.
Proof.
  pose proof (uint_all_digits (Nat.to_uint n)) as H.
  change (Py.chars (NilEmpty.string_of_uint (Nat.to_uint n)))
    with (digits n) in H.
  induction (digits n) as [|c tl IH]; simpl in *; [reflexivity|].
  apply andb_prop in H as [Hc Ht].
  rewrite (digit_is_word_char c Hc), (IH Ht). reflexivity.
Qed.

(** A [#] and the decimal text of a number, followed by no letter, digit,
    underscore or [#], become one CELL_REF token that holds this
    number, within the same model of [int]. *)
Theorem cell_reference_round_trip line_num n rest :
  stops is_word_char rest ->
  scan line_num 0 ("#"%char :: digits n ++ rest) =
  (toks ← scan line_num 0 rest;
   Ok (Tk CELL_REF (VInt (N.of_nat n)) line_num :: toks)).
Proof.
  intros Hs.
  pose proof (takewhile_app is_word_char ("#"%char :: digits n) rest) as Ht.
  simpl forallb in Ht. rewrite digits_are_word_chars in Ht.
  specialize (Ht eq_refl Hs).
  change (("#"%char :: digits n) ++ rest)
    with ("#"%char :: (digits n ++ rest)) in Ht.
  rewrite scan_cons, (lex_at_word line_num "#" _ eq_refl).
  cbv zeta. rewrite Ht.
  assert (Py.startswith "#" (Py.str ("#"%char :: digits n)) = true) as ->.
  { unfold Py.startswith, Py.str.
    cbn [string_of_list_ascii String.prefix].
    destruct (ascii_dec "#" "#"); [|congruence].
    destruct (string_of_list_ascii (digits n)); reflexivity. }
  change (tail ("#"%char :: digits n)) with (digits n).
  rewrite int_digits.
  cbn [mbind result_bind fst snd length].
  replace (S (length (digits n)) - 1) with (length (digits n)) by lia.
  rewrite scan_skip. reflexivity.
Qed.

Lemma cell_reference_round_trip_witness :
  scan 1 0 ("#"%char :: digits 7 ++ Py.chars " 3") =
  (toks ← scan 1 0 (Py.chars " 3");
   Ok (Tk CELL_REF (VInt (N.of_nat 7)) 1 :: toks)).
Proof.
  apply (cell_reference_round_trip 1 7 (Py.chars " 3")). reflexivity.
Defined.

(** *** Line numbers *)

Lemma lex_at_line line_num c tl tok n :
  lex_at line_num c tl = Ok (Some tok, n) -> line_number tok = line_num.
Proof.
  unfold lex_at. intros H.
  repeat match type of H with
         | (if ?b then _ else _) = _ => destruct b
         | match ?x with _ => _ end = _ => destruct x; try discriminate
         end;
    try discriminate; injection H as <- _; reflexivity.
Qed.

Lemma scan_line line_num rest : forall skip toks,
  scan line_num skip rest = Ok toks ->
  Forall (fun t => line_number t = line_num) toks.
Proof.
  induction rest as [|c tl IH]; intros skip toks; simpl.
  - intros [= <-]. constructor.
  - destruct skip as [|k]; [|apply IH].
    intros H. apply bind_ok in H as ([found n] & Hlex & H).
    apply bind_ok in H as (later & Hl & H). injection H as <-.
    apply IH in Hl. simpl. destruct found as [tok|]; [|exact Hl].
    constructor; [eapply lex_at_line; eauto | exact Hl].
Qed.

Lemma mark_first_line level line_num toks :
  Forall (fun t => line_number t = line_num) toks ->
  Forall (fun t => line_number t = line_num) (mark_first level toks).
Proof.
  intros H. destruct H as [|tok rest Ht Hr]; simpl; constructor; auto.
Qed.

Lemma sorted_app (l1 l2 : list Token) :
  StronglySorted earlier l1 -> StronglySorted earlier l2 ->
  (forall a b, In a l1 -> In b l2 -> earlier a b) ->
  StronglySorted earlier (l1 ++ l2).
Proof.
  intros H1 H2 H. induction H1 as [|a l1 Hs IH Ha]; simpl; [exact H2|].
  constructor.
  - apply IH. intros x y Hx Hy. apply H; [right; exact Hx | exact Hy].
  - apply List.Forall_app. split; [exact Ha|].
    apply List.Forall_forall. intros y Hy. apply H; [left; reflexivity | exact Hy].
Qed.

Lemma same_line_sorted line_num toks :
  Forall (fun t => line_number t = line_num) toks ->
  StronglySorted earlier toks.
Proof.
  induction 1 as [|tok rest Ht Hr IH]; constructor; [exact IH|].
  apply List.Forall_forall. intros y Hy.
  rewrite List.Forall_forall in Hr. unfold earlier.
  rewrite Ht, (Hr y Hy). apply Nat.le_refl.
Qed.

Lemma tokenize_lines_numbers lines : forall line_num mc toks,
  tokenize_lines line_num mc lines = Ok toks ->
  Forall (fun t => line_num <= line_number t < line_num + length lines) toks
  /\ StronglySorted earlier toks.
Proof.
  induction lines as [|line lines IH]; intros ln mc toks; simpl.
  - intros [= <-]. split; constructor.
  - assert (forall mc' toks',
              tokenize_lines (S ln) mc' lines = Ok toks' ->
              Forall (fun t => ln <= line_number t < ln + S (length lines))
                     toks' /\ StronglySorted earlier toks') as Hnext.
    { intros mc' toks' H. apply IH in H as [Hb Hs]. split; [|exact Hs].
      eapply List.Forall_impl; [|exact Hb]. simpl. intros t Ht. lia. }
    repeat match goal with
           | |- (if ?b then _ else _) = _ -> _ =>
               destruct b; [apply Hnext|]
           end.
    intros H. apply bind_ok in H as (lt & Hsc & H).
    apply bind_ok in H as (later & Hl & H). injection H as <-.
    apply scan_line in Hsc.
    apply (mark_first_line (Line.line_indent line / 4)) in Hsc.
    pose proof (IH _ _ _ Hl) as [Hlb Hls].
    split.
    + apply List.Forall_app. split; [|apply (Hnext _ _ Hl)].
      eapply List.Forall_impl; [|exact Hsc]. simpl. intros t ->. lia.
    + apply sorted_app; [eapply same_line_sorted; exact Hsc | exact Hls |].
      intros a b Ha Hb. rewrite List.Forall_forall in Hsc, Hlb.
      unfold earlier. rewrite (Hsc a Ha). specialize (Hlb b Hb). lia.
Qed.

(** The tokens come in the order of the source: their line numbers never
    decrease along the list, and each is the number of a line of the
    source, counted from 1. *)
Theorem tokens_follow_the_source code toks :
  tokenize code = Ok toks ->
  Forall (fun t => 1 <= line_number t <= length (Py.split_on nl code)) toks
  /\ StronglySorted earlier toks.
Proof.
  intros H. apply tokenize_lines_numbers in H as [Hb Hs].
  split; [|exact Hs]. eapply List.Forall_impl; [|exact Hb].
  simpl. intros t Ht. lia.
Qed.

Lemma tokens_follow_the_source_witness :
  Forall (fun t => 1 <= line_number t
                   <= length (Py.split_on nl
                                (Py.join nls ["peck"; ""; "hop hop"])))
         (mark_first 0 [Tk PECK (VStr "peck") 1]
          ++ mark_first 0 [Tk HOP (VStr "hop") 3; Tk HOP (VStr "hop") 3])
  /\ StronglySorted earlier
       (mark_first 0 [Tk PECK (VStr "peck") 1]
        ++ mark_first 0 [Tk HOP (VStr "hop") 3; Tk HOP (VStr "hop") 3]).
Proof.
  apply (tokens_follow_the_source (Py.join nls ["peck"; ""; "hop hop"])).
  vm_compute. reflexivity.
Defined.

(** *** The errors of the lexer *)

Lemma op_start_cases c :
  is_op_start c = true ->
  c = "<"%char \/ c = ">"%char \/ c = "="%char \/ c = "!"%char.
Proof.
  destruct c as [[] [] [] [] [] [] [] []]; vm_compute; intros H;
    try discriminate; auto.
Qed.

Lemma lex_at_errors line_num c tl e :
  lex_at line_num c tl = Raise e -> lex_error e.
Proof.
  unfold lex_at. intros H.
  destruct (Py.isspace c); [discriminate|].
  destruct (Ascii.eqb c dq).
  { destruct (string_body tl); [discriminate|]. injection H as <-.
    right. exists line_num. auto. }
  destruct (Py.isdigit c).
  { destruct (Py.int _); [discriminate|]. injection H as <-. left.
    reflexivity. }
  destruct (is_word_start c).
  { destruct (Py.startswith _ _).
    - destruct (Py.int _); [discriminate|]. injection H as <-.
      right. exists line_num. right. left. eauto.
    - destruct (lookup_key _ keywords); discriminate. }
  destruct (is_op_start c) eqn:Eo.
  2:{ destruct (Ascii.eqb c ":"); discriminate. }
  right. exists line_num. right. right.
  cbv zeta in H.
  destruct (op_start_cases c Eo) as [-> | [-> | [-> | ->]]];
    revert H; destruct tl as [|c2 tl]; simpl;
    try (destruct (Ascii.eqb c2 "=") eqn:E; simpl; rewrite ?E);
    intros H; try discriminate; injection H as <-; reflexivity.
Qed.

Lemma scan_errors line_num rest : forall skip e,
  scan line_num skip rest = Raise e -> lex_error e.
Proof.
  induction rest as [|c tl IH]; intros skip e; simpl; [discriminate|].
  destruct skip as [|k]; [|apply IH].
  destruct (lex_at line_num c tl) as [[found n]|e'] eqn:Hl; simpl.
  - destruct (scan line_num (n - 1) tl) as [toks|e'] eqn:Hs; simpl;
      [discriminate|].
    intros [= <-]. eapply IH. exact Hs.
  - intros [= <-]. eapply lex_at_errors. exact Hl.
Qed.

Lemma tokenize_lines_errors lines : forall line_num mc e,
  tokenize_lines line_num mc lines = Raise e -> lex_error e.
Proof.
  induction lines as [|line lines IH]; intros ln mc e; simpl;
    [discriminate|].
  repeat match goal with
         | |- (if ?b then _ else _) = _ -> _ => destruct b; [apply IH|]
         end.
  destruct (scan ln 0 _) as [lt|e'] eqn:Hs; simpl.
  - destruct (tokenize_lines (S ln) false lines) as [later|e'] eqn:Hl;
      simpl; [discriminate|].
    intros [= <-]. eapply IH. exact Hl.
  - intros [= <-]. eapply scan_errors. exact Hs.
Qed.

(** The lexer stops in four ways only: with the reported messages for a
    string that is not closed, for a [#] word that is no number, and for
    a [!] that no [=] follows, the only operator that is refused; and
    with an unreported ValueError, from [int] on a run of digits. *)
Theorem lexer_errors code e :
  tokenize code = Raise e -> lex_error e.
Proof. apply tokenize_lines_errors. Qed.

Lemma lexer_errors_witness :
  lex_error (SystemExit "Error: Invalid operator '!' at line 1").
Proof.
  apply (lexer_errors "peck ! peck"). vm_compute. reflexivity.
Defined.

End LexFacts.

(** ** The parser *)

Module ParserFacts.
Import Tok TokFacts.

(** *** [parse] reads every token *)

Lemma parse_loop_ends fuel : forall self blocks p out,
  parse_loop fuel self blocks = Some (Ok (p, out)) ->
  is_at_end p = true /\ tokens p = tokens self.
Proof.
  induction fuel as [|fuel IH]; intros self blocks p out; simpl.
  - destruct (is_at_end self) eqn:E; [|discriminate].
    intros [= <- _]. auto.
  - destruct (is_at_end self) eqn:E; [intros [= <- _]; auto|].
    destruct (parse_statement self) as [[self' stmt]|e] eqn:Hs;
      [|discriminate].
    apply (parse_statement_advances _ _ _ E) in Hs as [Ht _].
    destruct stmt; intros H; apply IH in H as [H1 H2]; split; congruence.
Qed.

(** [parse] returns for every token list, and when it returns statements
    it has read all the tokens, which it leaves as they were. *)
Theorem parse_reads_every_token (toks : list Token) :
  exists r, parse (new toks) = Some r /\
    forall p blocks, r = Ok (p, blocks) ->
      tokens p = toks /\ is_at_end p = true.
Proof.
  destruct (parse_total (new toks)) as [r Hr]. exists r.
  split; [exact Hr|]. intros p blocks ->. unfold parse in Hr.
  destruct (first_pass (new toks)) as [[self'|e]|] eqn:Hf;
    try discriminate.
  apply first_pass_loop_tokens in Hf as [Ht _].
  apply parse_loop_ends in Hr as [He Hp]. split; [|exact He].
  rewrite Hp, Ht. reflexivity.
Qed.

(** *** What [first_pass] collects *)

Lemma type_at_lookup self i t :
  type_at self i t = true ->
  exists tok, tokens self !! i = Some tok /\ type tok = t /\
              value_at self i = value tok.
Proof.
  unfold type_at, value_at. destruct (tokens self !! i) as [tok|];
    [|discriminate].
  intros H. apply bool_decide_eq_true in H. eauto.
Qed.

Lemma type_at_two self i t u :
  type_at self i t = true -> type_at self i u = true -> t = u.
Proof.
  intros H1 H2. apply type_at_lookup in H1 as (a & Ha & <- & _).
  apply type_at_lookup in H2 as (b & Hb & <- & _). congruence.
Qed.

Lemma collected_ok_step self i token self' i' :
  tokens self !! i = Some token ->
  collected_ok self ->
  first_pass_step self i token = Ok (self', i') ->
  collected_ok self'.
Proof.
  intros Htok (Hl & Hc & Hs). unfold first_pass_step.
  destruct (bool_decide (type token = PERCH)) eqn:Ep.
  { apply bool_decide_eq_true in Ep.
    destruct (type_at self (i + 1) IDENTIFIER) eqn:E;
      [|intros [= <- <-]; repeat split; assumption].
    intros H. apply bind_ok in H as (name & Hn & H). injection H as <- <-.
    apply type_at_lookup in E as (nm & Hnm & Hty & Hv). rewrite Hv in Hn.
    split; [|split; assumption]. simpl. intros l Hin.
    apply elem_of_union in Hin as [Hin|Hin]; [|apply Hl; exact Hin].
    apply elem_of_singleton in Hin as ->.
    exists i, token, nm. auto. }
  destruct (bool_decide (type token = CHIRP)) eqn:Ec.
  { apply bool_decide_eq_true in Ec.
    destruct (type_at self (i + 1) IDENTIFIER) eqn:E;
      [|intros [= <- <-]; repeat split; assumption].
    intros H. apply bind_ok in H as (name & Hn & H). injection H as <- <-.
    apply type_at_lookup in E as (nm & Hnm & Hty & Hv). rewrite Hv in Hn.
    split; [exact Hl|]. split; [|exact Hs]. simpl. intros k body.
    destruct (decide (name = k)) as [->|Hne].
    - rewrite lookup_insert_eq. intros [= <-]. exists i.
      split; [|reflexivity]. exists token, nm. auto.
    - rewrite lookup_insert_ne by exact Hne. apply Hc. }
  destruct (bool_decide (type token = STOMACH)) eqn:Es;
    [|intros [= <- <-]; repeat split; assumption].
  apply bool_decide_eq_true in Es.
  destruct (i + 1 <? length (tokens self));
    [|intros [= <- <-]; repeat split; assumption].
  intros H. apply bind_ok in H as (s1 & Hd & H). injection H as <- <-.
  unfold declare_stomach in Hd.
  match type of Hd with
  | match ?name with _ => _ end = _ => destruct name as [|n| | |] eqn:En
  end; try discriminate.
  { injection Hd as <-. repeat split; assumption. }
  destruct (n == ""); injection Hd as <-; [repeat split; assumption|].
  split; [exact Hl|]. split; [exact Hc|]. simpl. intros k v.
  destruct (decide (n = k)) as [->|Hne].
  - rewrite lookup_insert_eq. intros [= <-]. exists i, token.
    split; [exact Htok|]. split; [exact Es|].
    destruct (type_at self (i + 1) NUMBER) eqn:E1.
    + right. destruct (type_at self (i + 2) IDENTIFIER) eqn:E2;
        [auto | discriminate].
    + left. destruct (type_at self (i + 1) IDENTIFIER) eqn:E2;
        [auto | discriminate].
  - rewrite lookup_insert_ne by exact Hne. apply Hs.
Qed.

Lemma collected_ok_loop fuel : forall self i self',
  collected_ok self ->
  first_pass_loop fuel self i = Some (Ok self') ->
  collected_ok self'.
Proof.
  induction fuel as [|fuel IH]; intros self i self' Hinv; simpl.
  - destruct (tokens self !! i); [discriminate|]. intros [= <-]. exact Hinv.
  - destruct (tokens self !! i) as [tok|] eqn:Htok;
      [|intros [= <-]; exact Hinv].
    destruct (first_pass_step self i tok) as [[s1 i1]|e] eqn:E;
      [|discriminate].
    apply IH. eapply collected_ok_step; eauto.
Qed.

(** Every label that [first_pass] collects is the name after a [perch]
    token, every macro is the name after a [chirp] token and its body is
    the run of tokens after that name up to the next [perch] or [chirp]
    at indentation 0, and every array is named after a [stomach] token,
    with the number between them, if there is one, as its size. The
    token list is left as it was. *)
Theorem first_pass_collects_declarations toks p :
  first_pass (new toks) = Some (Ok p) ->
  tokens p = toks /\
  (forall l, l ∈ labels p -> exists i, named_at toks PERCH i l) /\
  (forall k body, chirps p !! k = Some body ->
     exists i, named_at toks CHIRP i k /\
               body = body_run (skipn (i + 2) toks)) /\
  (forall k v, stomachs p !! k = Some v ->
     exists i tok, toks !! i = Some tok /\ type tok = STOMACH /\
       ((type_at p (i + 1) IDENTIFIER = true /\
         value_at p (i + 1) = VStr k /\ v = VNone) \/
        (type_at p (i + 1) NUMBER = true /\
         type_at p (i + 2) IDENTIFIER = true /\
         value_at p (i + 2) = VStr k /\ v = value_at p (i + 1)))).
Proof.
  intros H. pose proof (first_pass_loop_tokens _ _ _ _ H) as [Ht _].
  simpl in Ht. split; [exact Ht|]. rewrite <- Ht.
  apply (collected_ok_loop (length toks) (new toks) 0 p); [|exact H].
  repeat split; simpl.
  - intros l Hl. apply elem_of_empty in Hl. destruct Hl.
  - intros k body Hk. rewrite lookup_empty in Hk. discriminate.
  - intros k v Hk. rewrite lookup_empty in Hk. discriminate.
Qed.

Lemma first_pass_collects_declarations_witness :
  exists i,
    named_at [Tk PERCH (VStr "perch") 1; Tk IDENTIFIER (VStr "start") 1]
             PERCH i "start".
Proof.
  destruct (first_pass_collects_declarations
              [Tk PERCH (VStr "perch") 1; Tk IDENTIFIER (VStr "start") 1]
              (add_label
                 (new [Tk PERCH (VStr "perch") 1;
                       Tk IDENTIFIER (VStr "start") 1]) "start"))
    as (_ & Hl & _).
  - reflexivity.
  - apply Hl. simpl. apply elem_of_union_l, elem_of_singleton. reflexivity.
Defined.

(** *** The errors of the parser *)

Lemma lex_at_wt line_num c tl tok n :
  lex_at line_num c tl = Ok (Some tok, n) -> wt tok.
Proof.
  unfold lex_at, wt. intros H.
  repeat match type of H with
         | (if ?b then _ else _) = _ => destruct b
         | match ?x with _ => _ end = _ => destruct x; try discriminate
         end;
    try discriminate; injection H as <- _; simpl; eauto; discriminate.
Qed.

Lemma scan_wt line_num rest : forall skip toks,
  scan line_num skip rest = Ok toks -> Forall wt toks.
Proof.
  induction rest as [|c tl IH]; intros skip toks; simpl.
  - intros [= <-]. constructor.
  - destruct skip as [|k]; [|apply IH].
    intros H. apply bind_ok in H as ([found n] & Hlex & H).
    apply bind_ok in H as (later & Hl & H). injection H as <-.
    apply IH in Hl. simpl. destruct found as [tok|]; [|exact Hl].
    constructor; [eapply lex_at_wt; eauto | exact Hl].
Qed.

Lemma mark_first_wt level toks : Forall wt toks -> Forall wt (mark_first level toks).
Proof.
  intros H. destruct H as [|tok rest Ht Hr]; simpl; constructor; auto.
Qed.

Lemma tokenize_lines_wt lines : forall line_num mc toks,
  tokenize_lines line_num mc lines = Ok toks -> Forall wt toks.
Proof.
  induction lines as [|line lines IH]; intros ln mc toks; simpl.
  - intros [= <-]. constructor.
  - repeat match goal with
           | |- (if ?b then _ else _) = _ -> _ => destruct b; [apply IH|]
           end.
    intros H. apply bind_ok in H as (lt & Hs & H).
    apply bind_ok in H as (later & Hl & H). injection H as <-.
    apply Forall_app. split.
    + apply mark_first_wt. eapply scan_wt. exact Hs.
    + eapply IH. exact Hl.
Qed.

Lemma type_at_value self i :
  Forall wt (tokens self) -> type_at self i IDENTIFIER = true ->
  exists s, value_at self i = VStr s.
Proof.
  unfold type_at, value_at. intros Hall.
  destruct (tokens self !! i) as [tok|] eqn:E; [|discriminate].
  intros Ht. apply bool_decide_eq_true in Ht.
  rewrite Forall_lookup in Hall. apply (Hall _ _ E). exact Ht.
Qed.

Lemma first_pass_step_ok self i tok :
  Forall wt (tokens self) ->
  exists r, first_pass_step self i tok = Ok r.
Proof.
  intros Hall. unfold first_pass_step.
  destruct (bool_decide (type tok = PERCH)).
  { destruct (type_at self (i + 1) IDENTIFIER) eqn:E; [|eauto].
    destruct (type_at_value _ _ Hall E) as [s ->]. simpl. eauto. }
  destruct (bool_decide (type tok = CHIRP)).
  { destruct (type_at self (i + 1) IDENTIFIER) eqn:E; [|eauto].
    destruct (type_at_value _ _ Hall E) as [s ->]. simpl. eauto. }
  destruct (bool_decide (type tok = STOMACH)); [|eauto].
  destruct (i + 1 <? length (tokens self)); [|eauto].
  assert (forall name size,
            (name = VNone \/ exists s, name = VStr s) ->
            exists r, declare_stomach self name size = Ok r) as Hd.
  { intros name size [->|[s ->]]; simpl; [eauto|].
    destruct (s == ""); eauto. }
  match goal with
  | |- context [declare_stomach self ?name ?size] =>
      destruct (Hd name size) as [r ->]; [|simpl; eauto]
  end.
  destruct (type_at self (i + 1) NUMBER).
  - destruct (type_at self (i + 2) IDENTIFIER) eqn:E; [|auto].
    right. apply type_at_value; assumption.
  - destruct (type_at self (i + 1) IDENTIFIER) eqn:E; [|auto].
    right. apply type_at_value; assumption.
Qed.

Lemma first_pass_loop_ok fuel : forall self i e,
  Forall wt (tokens self) ->
  first_pass_loop fuel self i <> Some (Raise e).
Proof.
  induction fuel as [|fuel IH]; intros self i e Hall; simpl.
  - destruct (tokens self !! i); discriminate.
  - destruct (tokens self !! i) as [tok|]; [|discriminate].
    destruct (first_pass_step_ok self i tok Hall) as [[self' i'] Hs].
    rewrite Hs. apply IH.
    apply first_pass_step_advances in Hs as (_ & -> & _). exact Hall.
Qed.

Lemma advance_ok self :
  is_at_end self = false ->
  exists tok, advance self = Ok (set_current self (current self + 1), tok)
              /\ tokens self !! current self = Some tok.
Proof.
  intros Hend. unfold advance, previous. rewrite Hend. simpl.
  rewrite Nat.add_1_r.
  destruct (tokens self !! current self) as [tok|] eqn:E; [eauto|].
  apply lookup_ge_None_1 in E. unfold is_at_end in Hend.
  apply Nat.leb_gt in Hend. lia.
Qed.

Lemma take_first_ok alts : forall self,
  exists self' found,
    take_first self alts = Ok (self', found) /\
    tokens self' = tokens self /\ found_ok self alts found.
Proof.
  induction alts as [|t alts IH]; intros self; simpl.
  - eexists _, _. split; [reflexivity|]. simpl. auto.
  - destruct (check self t) eqn:E.
    + pose proof (check_not_at_end _ _ E) as Hend.
      destruct (advance_ok self Hend) as (tok & -> & Htok). simpl.
      eexists _, _. split; [reflexivity|]. split; [reflexivity|].
      unfold check, peek in E. rewrite Hend, Htok in E.
      apply bool_decide_eq_true in E. simpl.
      split; [auto|]. split; [exact E|].
      apply list_elem_of_In. eapply list_elem_of_lookup_2. exact Htok.
    + destruct (IH self) as (s' & f & Hs & Ht & Hf).
      eexists _, _. split; [exact Hs|]. split; [exact Ht|].
      destruct f as [[t' tok]|]; [|exact I]. simpl in *.
      destruct Hf as (Hin & Hty & Htok). auto.
Qed.

Ltac run_take_first :=
  match goal with
  | |- context [take_first ?s ?alts] =>
      let s' := fresh "s" in
      let f := fresh "found" in
      let Ht := fresh "Ht" in
      let Hf := fresh "Hf" in
      destruct (take_first_ok alts s) as (s' & f & -> & Ht & Hf); cbn
  end.

Ltac case_found :=
  match goal with
  | |- context [match ?f with _ => _ end] =>
      is_var f; destruct f as [[? ?]|]; cbn in *
  end.

Local Opaque take_first.

Lemma parse_statement_errors self :
  Forall wt (tokens self) ->
  raises_only parse_error (parse_statement self).
Proof.
  intros Hall. unfold parse_statement, simple.
  destruct (peek self) as [token|] eqn:Hpeek; [|exact I].
  pose proof (peek_not_at_end _ _ Hpeek) as Hend.
  destruct (advance_ok self Hend) as (tok0 & -> & _).
  destruct (type token); cbn;
    repeat first [ exact I | run_take_first | case_found ];
    try (exists (line_number token); auto; fail).
  - (* perch: the name is the value of an IDENTIFIER *)
    match goal with
    | Hf : _ /\ type ?tok = _ /\ In ?tok _ |- _ =>
        destruct Hf as ([<-|[]] & Hty & Hin)
    end.
    simpl in Hin. rewrite List.Forall_forall in Hall.
    destruct (Hall _ Hin Hty) as [name ->]. cbn. exact I.
  - (* identifier *)
    destruct (value tok0) as [|name| | |]; try exact I.
    destruct (chirps self !! name); exact I.
Qed.

Local Transparent take_first.

Lemma parse_loop_errors fuel : forall self blocks e,
  Forall wt (tokens self) ->
  parse_loop fuel self blocks = Some (Raise e) -> parse_error e.
Proof.
  induction fuel as [|fuel IH]; intros self blocks e Hall; simpl.
  - destruct (is_at_end self); discriminate.
  - destruct (is_at_end self) eqn:E; [discriminate|].
    pose proof (parse_statement_errors self Hall) as Hs.
    destruct (parse_statement self) as [[self' stmt]|e'] eqn:Hp.
    + apply (parse_statement_advances _ _ _ E) in Hp as [Ht _].
      destruct stmt; apply IH; rewrite Ht; exact Hall.
    + intros [= <-]. exact Hs.
Qed.

(** The parser reports two errors only, a [stomach] without a name and a
    [mimic] without a string: when the front end stops with an error that
    is not the lexer's, it is one of these two messages. Every other
    statement with missing or wrong operands is accepted. *)
Theorem parser_reports_two_errors_only code e :
  front_end code = Some (Raise e) ->
  tokenize code = Raise e \/ parse_error e.
Proof.
  unfold front_end. destruct (tokenize code) as [toks|e'] eqn:Hl.
  2:{ intros [= <-]. left. reflexivity. }
  intros H. right. apply tokenize_lines_wt in Hl. unfold parse in H.
  destruct (first_pass (new toks)) as [[self'|e']|] eqn:Hf;
    [| |discriminate].
  - apply first_pass_loop_tokens in Hf as [Ht _].
    eapply parse_loop_errors; [|exact H]. rewrite Ht. exact Hl.
  - exfalso. eapply first_pass_loop_ok; [|exact Hf]. exact Hl.
Qed.

Lemma parser_reports_two_errors_only_witness :
  tokenize "mimic" =
    Raise (SystemExit "Error at line 1: Expected string after mimic") \/
  parse_error (SystemExit "Error at line 1: Expected string after mimic").
Proof.
  apply (parser_reports_two_errors_only "mimic").
  vm_compute. reflexivity.
Defined.

End ParserFacts.
